(** * Search ranking of good-chat: a shallow embedding and its properties

    The development embeds [src/lib/search/search-service.ts] and the
    search handler of [src/app/api/search/route.ts]:

    - JavaScript strings are lists of 8-bit characters read as Latin-1
      code points ([trim], [toLowerCase], [substring], [indexOf]);
    - the relational store is a pair of tables; every query the service
      sends is run by an interpreter of the SQL it builds (WHERE, the
      CASE score, ORDER BY, OFFSET/LIMIT) and is recorded in a log, so
      that "no store access" is the empty log; the order of rows that
      tie under ORDER BY belongs to the store and may differ from one
      query to the next;
    - a query on which PostgreSQL raises an error (a pattern that ends
      in a lone backslash) returns nothing to the service; statements
      about the rows returned exclude such search terms;
    - [Array.prototype.sort] is the stable sort of ECMAScript 2019;
    - [fuzzySearch] ([lib/fuzzy-search], not part of the sources at
      hand) is a parameter of the section that embeds [searchChats]. *)

From Stdlib Require Import Ascii String List Bool Arith ZArith QArith Lia Lqa.
From Stdlib Require Import Sorting.Sorted Sorting.Permutation.
Import ListNotations.

Set Implicit Arguments.
Open Scope nat_scope.

(* ================================================================= *)
(** ** Strings *)

Module Str.

Definition str := list ascii.

Definition lit (s : string) : str := list_ascii_of_string s.

Definition code (c : ascii) : nat := nat_of_ascii c.

Fixpoint eqb (a b : str) : bool :=
match a, b with
| [], [] => true
| x :: a', y :: b' => Ascii.eqb x y && eqb a' b'
| _, _ => false
end.

(** [String.prototype.toLowerCase] on Latin-1: A-Z, and the accented
  capitals U+00C0..U+00DE except the multiplication sign U+00D7. *)
Definition lower_char (c : ascii) : ascii :=
let n := code c in
if ((65 <=? n) && (n <=? 90))
   || ((192 <=? n) && (n <=? 222) && negb (n =? 215))
then ascii_of_nat (n + 32) else c.

Definition toLowerCase (s : str) : str := map lower_char s.

(** White space and line terminators of [String.prototype.trim] below
  U+0100: TAB, LF, VT, FF, CR, SPACE and NBSP. *)
Definition is_space (c : ascii) : bool :=
let n := code c in
((9 <=? n) && (n <=? 13)) || (n =? 32) || (n =? 160).

Fixpoint trimStart (s : str) : str :=
match s with
| [] => []
| c :: s' => if is_space c then trimStart s' else s
end.

Definition trimEnd (s : str) : str := rev (trimStart (rev s)).

Definition trim (s : str) : str := trimEnd (trimStart s).

(** [s.substring(0, n)] *)
Definition substring0 (n : nat) (s : str) : str := firstn n s.

Fixpoint startsWith (s q : str) {struct q} : bool :=
match q, s with
| [], _ => true
| c :: q', d :: s' => Ascii.eqb c d && startsWith s' q'
| _ :: _, [] => false
end.

Definition endsWith (s q : str) : bool := startsWith (rev s) (rev q).

Fixpoint includes (s q : str) : bool :=
startsWith s q || match s with [] => false | _ :: s' => includes s' q end.

End Str.

Import Str.

(* ================================================================= *)
(** ** SQL pattern matching *)

Module Sql.

(** [text LIKE pattern] with the default escape character: [%] matches
  any run of characters, [_] any one character, a backslash takes the
  next pattern character literally.  PostgreSQL raises an error when
  the matching reaches a lone backslash at the end of the pattern, and
  the query fails; [like] answers [false] there, which stands for no
  answer of the store.  What is stated about the rows a query returns
  is therefore stated for search terms whose escapes are closed
  ([escapes_closed]): none of the patterns built from such terms ends
  in a lone backslash. *)
Fixpoint like (p : str) (s : str) {struct p} : bool :=
match p with
| [] => match s with [] => true | _ => false end
| c :: p1 =>
    if Ascii.eqb c "%" then
      (fix any (t : str) : bool :=
         like p1 t || match t with [] => false | _ :: t' => any t' end) s
    else if Ascii.eqb c "_" then
      match s with [] => false | _ :: s' => like p1 s' end
    else if Ascii.eqb c "\" then
      match p1 with
      | [] => false
      | e :: p2 =>
          match s with
          | [] => false
          | d :: s' => Ascii.eqb e d && like p2 s'
          end
      end
    else
      match s with
      | [] => false
      | d :: s' => Ascii.eqb c d && like p1 s'
      end
end.

(** [LOWER(text)] *)
Definition LOWER (s : str) : str := toLowerCase s.

(** [text ILIKE pattern]: LIKE after case folding of both sides. *)
Definition ilike (s p : str) : bool := like (LOWER p) (LOWER s).

(** A nullable operand makes the comparison NULL, which WHERE and WHEN
  both read as "not true". *)
Definition like_null (s : option str) (p : str) : bool :=
match s with Some t => like p t | None => false end.

Definition ilike_null (s : option str) (p : str) : bool :=
match s with Some t => ilike t p | None => false end.

Definition lower_null (s : option str) : option str := option_map LOWER s.

(** Every backslash of [p] is followed by the character it escapes. *)
Fixpoint escapes_closed (p : str) : bool :=
  match p with
  | [] => true
  | c :: p1 =>
      if Ascii.eqb c "\" then
        match p1 with
        | [] => false
        | _ :: p2 => escapes_closed p2
        end
      else escapes_closed p1
  end.

(** The characters that LIKE does not take literally. *)
Definition is_meta (c : ascii) : bool :=
Ascii.eqb c "%" || Ascii.eqb c "_" || Ascii.eqb c "\".

Definition plain (q : str) : bool := forallb (fun c => negb (is_meta c)) q.

End Sql.

Import Sql.

(* ================================================================= *)
(** ** Stable sorting *)

Section StableSort.

Variable A : Type.
Variable le : A -> A -> bool.

Fixpoint insert (x : A) (l : list A) : list A :=
  match l with
  | [] => [x]
  | y :: l' => if le x y then x :: l else y :: insert x l'
  end.

(** Elements are inserted from the right, so an element stays in front
    of the later elements it ties with. *)
Fixpoint stable_sort (l : list A) : list A :=
  match l with
  | [] => []
  | x :: l' => insert x (stable_sort l')
  end.

End StableSort.

(** [ORDER BY k1 DESC, k2 DESC]: [a] may stand in front of [b]. *)
Definition order_desc2 {A : Type} (k1 : A -> Q) (k2 : A -> Z) (a b : A)
  : bool :=
  match (k1 a ?= k1 b)%Q with
  | Gt => true
  | Eq => (k2 b <=? k2 a)%Z
  | Lt => false
  end.

(** [arr.sort(compareFn)]: [a] stays in front of [b] when
    [compareFn(a, b) <= 0]. *)
Definition Array_sort {A : Type} (compareFn : A -> A -> Q) (arr : list A)
  : list A :=
  stable_sort (fun a b => Qle_bool (compareFn a b) 0%Q) arr.

(** [arr.slice(start, end)] for [0 <= start <= end]. *)
Definition slice {A : Type} (start stop : nat) (arr : list A) : list A :=
  firstn (stop - start) (skipn start arr).

(** [Math.ceil(limit / 2)] *)
Definition ceil_half (limit : nat) : nat := Nat.div2 (S limit).

(* ================================================================= *)
(** ** The store *)

Definition Date := Z.
Bind Scope Z_scope with Date.

Inductive Role := user | assistant | system.

Definition Role_eqb (a b : Role) : bool :=
  match a, b with
  | user, user | assistant, assistant | system, system => true
  | _, _ => false
  end.

Module chatThreads.
(** Modelled from the spec: the table declaration [chatThreads] of
    [lib/db/pg/schema] is missing; a chat has an id, an owner id, an
    optional title, an optional collection (project) id and created and
    updated timestamps. *)
Record row := mk {
  id : str;
  title : option str;
  userId : str;
  projectId : option str;
  createdAt : Date;
  updatedAt : Date
}.
End chatThreads.

Module messages.
(** Modelled from the spec: the table declaration [messages] of
    [lib/db/pg/schema] is missing; a message has an id, a parent chat
    id, a role (user, assistant or system), text content and a created
    timestamp. *)
Record row := mk {
  id : str;
  content : str;
  role : Role;
  chatId : str;
  createdAt : Date
}.
End messages.

Record SearchFilters := {
  userId : str;
  projectId : option str;
  dateFrom : option Date;
  dateTo : option Date
}.

(** What the service asks of the store.  [limit] and [offset] are [None]
    when the query builder is not given [.limit(n)] or [.offset(n)]. *)
Inductive Query :=
| SelectChats (searchTerms : str) (filters : SearchFilters)
              (limit offset : option nat)
| SelectMessages (searchTerms : str) (filters : SearchFilters)
                 (limit offset : option nat)
| SelectTitles (owner query : str) (limit offset : option nat).

(** The two tables, and the order in which the store hands out rows
    that tie under the ORDER BY of a query: PostgreSQL leaves that order
    open, and it may change with the query, its LIMIT and OFFSET
    included.  [tieOrder q i] ranks the [i]-th row that query [q]
    matches; rows of the same rank keep the order of the table. *)
Record Store := {
  chatThreadsTable : list chatThreads.row;
  messagesTable : list messages.row;
  tieOrder : Query -> nat -> nat
}.

(** The store that hands out tied rows in the order of the table. *)
Definition table_order (_ : Query) (_ : nat) : nat := 0.

Fixpoint number_from {A : Type} (i : nat) (rows : list A)
  : list (nat * A) :=
  match rows with
  | [] => []
  | r :: rows' => (i, r) :: number_from (S i) rows'
  end.

(** The matched rows in the order the store reaches them for query [q],
    before the ORDER BY of the query sorts them. *)
Definition arrange {A : Type} (st : Store) (q : Query) (rows : list A)
  : list A :=
  map snd
    (stable_sort
       (fun a b => tieOrder st q (fst a) <=? tieOrder st q (fst b))
       (number_from 0 rows)).

(** A computation that reads the store and records its queries. *)
Definition DB (A : Type) : Type := Store -> A * list Query.

Definition ret {A : Type} (a : A) : DB A := fun _ => (a, []).

Definition bind {A B : Type} (m : DB A) (k : A -> DB B) : DB B :=
  fun st =>
    let r1 := m st in
    let r2 := k (fst r1) st in
    (fst r2, snd r1 ++ snd r2).

Notation "x <- m ;; k" := (bind m (fun x => k))
  (at level 61, m at next level, right associativity).

Definition result {A : Type} (r : A * list Query) : A := fst r.
Definition accesses {A : Type} (r : A * list Query) : list Query := snd r.

(** JavaScript truthiness of a nullable string. *)
Definition truthy (s : option str) : bool :=
  match s with
  | Some (_ :: _) => true
  | _ => false
  end.

(** [s || d] *)
Definition or_else (s : option str) (d : str) : str :=
  if truthy s then match s with Some t => t | None => d end else d.

(** [s || undefined] *)
Definition or_undefined (s : option str) : option str :=
  if truthy s then s else None.

(** [eq(column, value)] on a nullable column. *)
Definition eq_null (col : option str) (v : str) : bool :=
  match col with Some c => Str.eqb c v | None => false end.

Definition pct : str := lit "%".

(** The conditions pushed on [whereConditions] after the owner test. *)
Definition whereProject (f : SearchFilters) (p : option str) : bool :=
  if truthy (projectId f)
  then match projectId f with Some v => eq_null p v | None => true end
  else true.

Definition whereDates (f : SearchFilters) (created : Date) : bool :=
  match dateFrom f with Some d => (d <=? created)%Z | None => true end
  && match dateTo f with Some d => (created <=? d)%Z | None => true end.

(* ================================================================= *)
(** ** The queries of the service, as the store runs them *)

(** Rows of the chat query of [searchChats]. *)
Module chatHit.
Record row := mk {
  id : str;
  title : option str;
  createdAt : Date;
  updatedAt : Date;
  projectId : option str;
  score : Q
}.
End chatHit.

(** Rows of the joined message query of [searchMessages]. *)
Module messageHit.
Record row := mk {
  messageId : str;
  messageContent : str;
  messageRole : Role;
  messageCreatedAt : Date;
  chatId : str;
  chatTitle : option str;
  chatCreatedAt : Date;
  chatUpdatedAt : Date;
  projectId : option str;
  score : Q
}.
End messageHit.

(** The three patterns built from [searchTerms]. *)
Definition contains_pat (t : str) : str := pct ++ t ++ pct.
Definition prefix_pat (t : str) : str := t ++ pct.
Definition suffix_pat (t : str) : str := pct ++ t.

(** The CASE expression of the chat query. *)
Definition chat_score (searchTerms : str) (title : option str) : Q :=
  if like_null (lower_null title) (contains_pat searchTerms) then 100
  else if like_null (lower_null title) (prefix_pat searchTerms) then 80
  else if like_null (lower_null title) (suffix_pat searchTerms) then 60
  else 40.

(** The nested CASE expression of the message query. *)
Definition message_score (searchTerms : str) (content : str) : Q :=
  if like (contains_pat searchTerms) (LOWER content) then
    if like (prefix_pat searchTerms) (LOWER content) then 90
    else if like (suffix_pat searchTerms) (LOWER content) then 70
    else 50
  else 30.

Definition chat_where (searchTerms : str) (f : SearchFilters)
    (c : chatThreads.row) : bool :=
  Str.eqb (chatThreads.userId c) (userId f)
  && whereProject f (chatThreads.projectId c)
  && whereDates f (chatThreads.createdAt c)
  && ilike_null (chatThreads.title c) (contains_pat searchTerms).

Definition chat_select (searchTerms : str) (c : chatThreads.row)
  : chatHit.row :=
  chatHit.mk (chatThreads.id c) (chatThreads.title c)
    (chatThreads.createdAt c) (chatThreads.updatedAt c)
    (chatThreads.projectId c)
    (chat_score searchTerms (chatThreads.title c)).

(** [ORDER BY score DESC, updated_at DESC] *)
Definition chat_order : chatHit.row -> chatHit.row -> bool :=
  order_desc2 chatHit.score chatHit.updatedAt.

(** OFFSET, then LIMIT, each where the query has one. *)
Definition page {A : Type} (limit offset : option nat) (rows : list A)
  : list A :=
  let rows := match offset with Some n => skipn n rows | None => rows end in
  match limit with Some n => firstn n rows | None => rows end.

Definition run_select_chats (st : Store) (searchTerms : str)
    (f : SearchFilters) (limit offset : option nat) : list chatHit.row :=
  page limit offset
    (stable_sort chat_order
       (map (chat_select searchTerms)
          (arrange st (SelectChats searchTerms f limit offset)
             (filter (chat_where searchTerms f) (chatThreadsTable st))))).

(** [messages INNER JOIN chat_threads ON messages.chat_id = chat_threads.id] *)
Definition messages_join (st : Store)
  : list (messages.row * chatThreads.row) :=
  flat_map
    (fun m =>
       map (fun c => (m, c))
         (filter (fun c => Str.eqb (messages.chatId m) (chatThreads.id c))
            (chatThreadsTable st)))
    (messagesTable st).

Definition message_where (searchTerms : str) (f : SearchFilters)
    (mc : messages.row * chatThreads.row) : bool :=
  let (m, c) := mc in
  Str.eqb (chatThreads.userId c) (userId f)
  && whereProject f (chatThreads.projectId c)
  && whereDates f (messages.createdAt m)
  && ilike (messages.content m) (contains_pat searchTerms)
  && (Role_eqb (messages.role m) user
      || Role_eqb (messages.role m) assistant).

Definition message_select (searchTerms : str)
    (mc : messages.row * chatThreads.row) : messageHit.row :=
  let (m, c) := mc in
  messageHit.mk (messages.id m) (messages.content m) (messages.role m)
    (messages.createdAt m) (chatThreads.id c) (chatThreads.title c)
    (chatThreads.createdAt c) (chatThreads.updatedAt c)
    (chatThreads.projectId c)
    (message_score searchTerms (messages.content m)).

(** [ORDER BY score DESC, messages.created_at DESC] *)
Definition message_order : messageHit.row -> messageHit.row -> bool :=
  order_desc2 messageHit.score messageHit.messageCreatedAt.

Definition run_select_messages (st : Store) (searchTerms : str)
    (f : SearchFilters) (limit offset : option nat) : list messageHit.row :=
  page limit offset
    (stable_sort message_order
       (map (message_select searchTerms)
          (arrange st (SelectMessages searchTerms f limit offset)
             (filter (message_where searchTerms f) (messages_join st))))).

(** [ORDER BY updated_at DESC] of the suggestion query. *)
Definition title_order (a b : chatThreads.row) : bool :=
  (chatThreads.updatedAt b <=? chatThreads.updatedAt a)%Z.

Definition run_select_titles (st : Store) (owner query : str)
    (limit offset : option nat) : list (option str) :=
  map chatThreads.title
    (page limit offset
       (stable_sort title_order
          (arrange st (SelectTitles owner query limit offset)
             (filter
                (fun c => Str.eqb (chatThreads.userId c) owner
                          && ilike_null (chatThreads.title c)
                               (contains_pat query))
                (chatThreadsTable st))))).

Definition db_select_chats (searchTerms : str) (f : SearchFilters)
    (limit offset : option nat) : DB (list chatHit.row) :=
  fun st => (run_select_chats st searchTerms f limit offset,
             [SelectChats searchTerms f limit offset]).

Definition db_select_messages (searchTerms : str) (f : SearchFilters)
    (limit offset : option nat) : DB (list messageHit.row) :=
  fun st => (run_select_messages st searchTerms f limit offset,
             [SelectMessages searchTerms f limit offset]).

Definition db_select_titles (owner query : str) (limit offset : option nat)
  : DB (list (option str)) :=
  fun st => (run_select_titles st owner query limit offset,
             [SelectTitles owner query limit offset]).

(* ================================================================= *)
(** ** The search service *)

Inductive ResultType := chat | message.

Record Metadata := {
  meta_chatId : option str;
  meta_chatTitle : option str;
  meta_messageRole : option Role;
  meta_projectId : option str
}.

Module SearchResult.
Record t := mk {
  id : str;
  type : ResultType;
  title : str;
  content : str;
  url : str;
  score : Q;
  createdAt : Date;
  updatedAt : option Date;
  metadata : Metadata
}.

(** [{ ...r, score: s }] *)
Definition with_score (r : t) (s : Q) : t :=
  mk (id r) (type r) (title r) (content r) (url r) s
     (createdAt r) (updatedAt r) (metadata r).
End SearchResult.

Record FuzzyItem := { item_id : str; item_label : str }.

(** [(a, b) => b.score - a.score] *)
Definition byScoreDesc (a b : SearchResult.t) : Q :=
  (SearchResult.score b - SearchResult.score a)%Q.

Definition chat_to_result (c : chatHit.row) : SearchResult.t :=
  SearchResult.mk
    (chatHit.id c)
    chat
    (or_else (chatHit.title c) (lit "Untitled Chat"))
    (or_else (chatHit.title c) [])
    (lit "/chat/" ++ chatHit.id c)
    (chatHit.score c)
    (chatHit.createdAt c)
    (Some (chatHit.updatedAt c))
    {| meta_chatId := None; meta_chatTitle := None;
       meta_messageRole := None;
       meta_projectId := or_undefined (chatHit.projectId c) |}.

(** The double quote character. *)
Definition dquote : ascii := ascii_of_nat 34.

Definition truncatedContent (messageContent : str) : str :=
  if 200 <? length messageContent
  then substring0 200 messageContent ++ lit "..."
  else messageContent.

Definition message_to_result (msg : messageHit.row) : SearchResult.t :=
  SearchResult.mk
    (messageHit.messageId msg)
    message
    (lit "Message in " ++ [dquote]
       ++ or_else (messageHit.chatTitle msg) (lit "Untitled Chat")
       ++ [dquote])
    (truncatedContent (messageHit.messageContent msg))
    (lit "/chat/" ++ messageHit.chatId msg ++ lit "?messageId="
       ++ messageHit.messageId msg)
    (messageHit.score msg)
    (messageHit.messageCreatedAt msg)
    None
    {| meta_chatId := Some (messageHit.chatId msg);
       meta_chatTitle := or_undefined (messageHit.chatTitle msg);
       meta_messageRole := Some (messageHit.messageRole msg);
       meta_projectId := or_undefined (messageHit.projectId msg) |}.

(** [existingIds.has(id)] for the [Set] built from the ids of [results]. *)
Definition has_id (results : list SearchResult.t) (i : str) : bool :=
  existsb (fun r => Str.eqb (SearchResult.id r) i) results.

(** One turn of the loop over [additionalResults]: [results.find], then
    [results.push] of the discounted copy when the lookup succeeds. *)
Definition push_fuzzy (results : list SearchResult.t) (fuzzyItem : FuzzyItem)
  : list SearchResult.t :=
  match find (fun r => Str.eqb (SearchResult.id r) (item_id fuzzyItem))
             results with
  | Some originalResult =>
      results ++ [SearchResult.with_score originalResult
                    (SearchResult.score originalResult * (8 # 10))%Q]
  | None => results
  end.

Section Service.

(** [fuzzySearch] of [lib/fuzzy-search]. *)
Variable fuzzySearch : list FuzzyItem -> str -> list FuzzyItem.

(** The block guarded by [results.length < limit]. *)
Definition fuzzy_fill (query : str) (limit : nat)
    (results : list SearchResult.t) : list SearchResult.t :=
  let fuzzySearchItems :=
    map (fun r => {| item_id := SearchResult.id r;
                     item_label := SearchResult.title r |}) results in
  let fuzzyResults := fuzzySearch fuzzySearchItems query in
  let additionalResults :=
    slice 0 (limit - length results)
      (filter (fun item => negb (has_id results (item_id item)))
         fuzzyResults) in
  fold_left push_fuzzy additionalResults results.

Definition searchChats (query : str) (filters : SearchFilters)
    (limit offset : nat) : DB (list SearchResult.t) :=
  let searchTerms := toLowerCase (trim query) in
  match searchTerms with
  | [] => ret []
  | _ :: _ =>
      fullTextResults <-
        db_select_chats searchTerms filters (Some limit) (Some offset) ;;
      let results := map chat_to_result fullTextResults in
      let results :=
        if length results <? limit
        then fuzzy_fill query limit results
        else results in
      ret (Array_sort byScoreDesc results)
  end.

Definition searchMessages (query : str) (filters : SearchFilters)
    (limit offset : nat) : DB (list SearchResult.t) :=
  let searchTerms := toLowerCase (trim query) in
  match searchTerms with
  | [] => ret []
  | _ :: _ =>
      messageResults <-
        db_select_messages searchTerms filters (Some limit) (Some offset) ;;
      ret (map message_to_result messageResults)
  end.

Definition semanticSearch (query : str) (filters : SearchFilters)
    (limit offset : nat) : DB (list SearchResult.t) :=
  chatResults <- searchChats query filters (ceil_half limit) 0 ;;
  messageResults <- searchMessages query filters (ceil_half limit) 0 ;;
  ret (slice offset (offset + limit)
         (Array_sort byScoreDesc (chatResults ++ messageResults))).

(** The branch [case "all"] of the search handler. *)
Definition searchAll (query : str) (filters : SearchFilters)
    (limit : nat) : DB (list SearchResult.t) :=
  chatResults <- searchChats query filters (ceil_half limit) 0 ;;
  messageResults <- searchMessages query filters (ceil_half limit) 0 ;;
  ret (slice 0 limit
         (Array_sort byScoreDesc (chatResults ++ messageResults))).

Inductive SearchType := all | chats | messagesOnly.

Record SearchResponse := {
  results : list SearchResult.t;
  total : nat;
  hasMore : bool
}.

(** The handler once [searchQuerySchema] has accepted the parameters. *)
Definition search_handler (q : str) (type : SearchType)
    (filters : SearchFilters) (limit offset : nat) : DB SearchResponse :=
  results <-
    match type with
    | chats => searchChats q filters limit offset
    | messagesOnly => searchMessages q filters limit offset
    | all => searchAll q filters limit
    end ;;
  ret {| results := results;
         total := length results;
         hasMore := length results =? limit |}.

(** What [searchQuerySchema] accepts: a non-empty [q] and a [limit]
    between 1 and 100. *)
Definition searchQuerySchema (q : str) (limit : nat) : bool :=
  (1 <=? length q) && (1 <=? limit) && (limit <=? 100).

End Service.

(** [arr.indexOf(x)] *)
Fixpoint indexOf_from (i : nat) (arr : list str) (x : str) : Z :=
  match arr with
  | [] => (-1)%Z
  | y :: arr' => if Str.eqb y x then Z.of_nat i else indexOf_from (S i) arr' x
  end.

Definition indexOf (arr : list str) (x : str) : Z := indexOf_from 0 arr x.

(** [arr.filter((x, index) => f x index)] *)
Fixpoint filter_index_from {A : Type} (f : A -> nat -> bool) (i : nat)
    (arr : list A) : list A :=
  match arr with
  | [] => []
  | x :: arr' =>
      if f x i then x :: filter_index_from f (S i) arr'
      else filter_index_from f (S i) arr'
  end.

Definition filter_index {A : Type} (f : A -> nat -> bool) (arr : list A)
  : list A := filter_index_from f 0 arr.

(** [arr.filter(Boolean)] on nullable strings. *)
Fixpoint filter_Boolean (arr : list (option str)) : list str :=
  match arr with
  | [] => []
  | Some (c :: s) :: arr' => (c :: s) :: filter_Boolean arr'
  | _ :: arr' => filter_Boolean arr'
  end.

(** [arr.filter((title, index, arr) => arr.indexOf(title) === index)] *)
Definition remove_duplicates (arr : list str) : list str :=
  filter_index (fun title index => (indexOf arr title =? Z.of_nat index)%Z)
    arr.

Definition getSearchSuggestions (owner query : str) (limit : nat)
  : DB (list str) :=
  if length query <? 2 then ret []
  else
    suggestions <- db_select_titles owner query (Some limit) None ;;
    ret (remove_duplicates (filter_Boolean suggestions)).

(* ================================================================= *)
(** ** Auxiliary definitions for the statements *)

(** The run of suffixes that a leading [%] tries. *)
Fixpoint any_suffix (P : str -> bool) (s : str) : bool :=
  P s || match s with [] => false | _ :: s' => any_suffix P s' end.

(** The moment a result was last touched: [updatedAt] where the result
    has one, [createdAt] otherwise. *)
Definition recency (r : SearchResult.t) : Date :=
  match SearchResult.updatedAt r with
  | Some u => u
  | None => SearchResult.createdAt r
  end.

(** [a] may stand in front of [b]: higher score, or the same score and
    not older. *)
Definition ranked_before (a b : SearchResult.t) : Prop :=
  (SearchResult.score b < SearchResult.score a)%Q
  \/ ((SearchResult.score a == SearchResult.score b)%Q
      /\ (recency b <= recency a)%Z).

Definition is_type (k : ResultType) (r : SearchResult.t) : bool :=
  match k, SearchResult.type r with
  | chat, chat | message, message => true
  | _, _ => false
  end.

(** The number of results of one kind. *)
Definition count_type (k : ResultType) (l : list SearchResult.t) : nat :=
  length (filter (is_type k) l).

(** The rows of each table that a query for [searchTerms] matches. *)
Definition chat_matches (st : Store) (searchTerms : str) (f : SearchFilters)
  : list chatThreads.row :=
  filter (chat_where searchTerms f) (chatThreadsTable st).

Definition message_matches (st : Store) (searchTerms : str)
    (f : SearchFilters) : list (messages.row * chatThreads.row) :=
  filter (message_where searchTerms f) (messages_join st).

(** The bands of the message query as the code assigns them to content
    that contains the search terms. *)
Definition message_band (searchTerms content : str) : Q :=
  if startsWith content searchTerms then 90
  else if endsWith content searchTerms then 70
  else 50.

(* ================================================================= *)
(** ** The specification's wording, for comparison *)

(** Tokenized Matcher, chat-title scale: equality 100, prefix 80,
    suffix 60, any other containment 40. *)
Definition title_band_spec (query candidate : str) : Q :=
  if Str.eqb candidate query then 100
  else if startsWith candidate query then 80
  else if endsWith candidate query then 60
  else 40.

(** Message-body scale: the chat-title bands shifted up by 10. *)
Definition message_band_spec (query candidate : str) : Q :=
  (title_band_spec query candidate + 10)%Q.

(** The message bands of the specification hold for a run of
    [searchMessages] when every row found carries its band. *)
Definition message_bands_as_specified (query : str) (f : SearchFilters)
    (limit offset : nat) (st : Store) : Prop :=
  let searchTerms := toLowerCase (trim query) in
  forall h,
    In h (run_select_messages st searchTerms f (Some limit) (Some offset)) ->
    (messageHit.score h
     == message_band_spec searchTerms
          (toLowerCase (messageHit.messageContent h)))%Q.




(** Deduplication in first-seen order: an element is kept when it has
    not been seen before. *)
Fixpoint first_seen (seen arr : list str) : list str :=
  match arr with
  | [] => []
  | x :: arr' =>
      if existsb (Str.eqb x) seen then first_seen (seen ++ [x]) arr'
      else x :: first_seen (seen ++ [x]) arr'
  end.

(* ================================================================= *)
(** ** Scenarios *)

Definition owner : str := lit "user1".

Definition owner_filters : SearchFilters :=
  {| userId := owner; projectId := None; dateFrom := None; dateTo := None |}.

Definition mkChat (i t : string) (updated : Date) : chatThreads.row :=
  chatThreads.mk (lit i) (Some (lit t)) owner None 0 updated.

Definition mkMessage (i c : string) (parent : string) (created : Date)
  : messages.row :=
  messages.mk (lit i) (lit c) user (lit parent) created.

(** A fuzzy scorer that accepts every candidate it is given. *)
Definition fuzzy_all (items : list FuzzyItem) (_ : str) : list FuzzyItem :=
  items.

(** One title and one message per band. *)
Definition band_store : Store :=
  {| chatThreadsTable :=
       [ mkChat "c1" "Alpha Notes" 40;
         mkChat "c2" "Project Alpha" 30;
         mkChat "c3" "My Alpha Plan" 20;
         mkChat "c4" "alpha" 10 ];
     messagesTable :=
       [ mkMessage "m1" "alpha" "c1" 4;
         mkMessage "m2" "Alpha comes first" "c1" 3;
         mkMessage "m3" "at the end alpha" "c1" 2;
         mkMessage "m4" "an alpha inside" "c1" 1 ];
     tieOrder := table_order |}.

(** A title that holds the query and one that is a typo away from it. *)
Definition typo_store : Store :=
  {| chatThreadsTable :=
       [ mkChat "c1" "Project Alpha" 2; mkChat "c2" "Alpha Notes" 1;
         mkChat "c3" "Aplha Review" 3 ];
     messagesTable := [];
     tieOrder := table_order |}.

(** Six chats and six messages that all match [alpha]. *)
Definition six_store : Store :=
  {| chatThreadsTable :=
       [ mkChat "c1" "Alpha 1" 6; mkChat "c2" "Alpha 2" 5;
         mkChat "c3" "Alpha 3" 4; mkChat "c4" "Alpha 4" 3;
         mkChat "c5" "Alpha 5" 2; mkChat "c6" "Alpha 6" 1 ];
     messagesTable :=
       [ mkMessage "m1" "alpha one" "c1" 6;
         mkMessage "m2" "alpha two" "c1" 5;
         mkMessage "m3" "alpha three" "c2" 4;
         mkMessage "m4" "alpha four" "c2" 3;
         mkMessage "m5" "alpha five" "c3" 2;
         mkMessage "m6" "alpha six" "c3" 1 ];
     tieOrder := table_order |}.

(** A message of 250 characters and one of 200. *)
Definition long_store : Store :=
  {| chatThreadsTable := [ mkChat "c1" "Test Chat" 1 ];
     messagesTable :=
       [ messages.mk (lit "m1") (repeat "a"%char 250) assistant (lit "c1") 2;
         messages.mk (lit "m2") (repeat "a"%char 200) user (lit "c1") 1 ];
     tieOrder := table_order |}.

(** Titles with a repeat, an empty title and a missing title. *)
Definition title_store : Store :=
  {| chatThreadsTable :=
       [ mkChat "c1" "Test Chat 1" 5; mkChat "c2" "Test Chat 2" 4;
         mkChat "c3" "Test Chat 1" 3; mkChat "c4" "Another Test" 2;
         chatThreads.mk (lit "c5") None owner None 0 1;
         mkChat "c6" "" 0 ];
     messagesTable := [];
     tieOrder := table_order |}.

(* ================================================================= *)
(** ** What the filters of a search demand of a row *)

(** The owner is the user of the filters; a non-empty project filter is
    the project of the row; the creation date lies between the date
    filters that are set. *)
Definition within_filters (f : SearchFilters) (rowOwner : str)
    (rowProject : option str) (created : Date) : Prop :=
  rowOwner = userId f
  /\ (forall v, projectId f = Some v -> v <> [] -> rowProject = Some v)
  /\ (forall d, dateFrom f = Some d -> (d <= created)%Z)
  /\ (forall d, dateTo f = Some d -> (created <= d)%Z).

(** The search terms a query is reduced to. *)
Definition normalize (query : str) : str := toLowerCase (trim query).

(** A string that is empty or begins with a character that is no
    white space. *)
Definition clean_head (s : str) : Prop :=
  match s with [] => True | c :: _ => is_space c = false end.

(* ================================================================= *)
(** ** The route handlers *)

(** The parameters of a search request as the schema receives them: a
    parameter is absent or has a value.  The model covers the requests
    whose [limit] and [offset], where present, are values that
    [z.coerce.number()] turns into an integer, held here; a value that
    coerces to no number (answered with status 400) or to a fraction
    lies outside it. *)
Record SearchParams := {
  param_q : option str;
  param_type : option str;
  param_limit : option Z;
  param_offset : option Z;
  param_dateFrom : option str;
  param_dateTo : option str;
  param_projectId : option str
}.

Record ValidatedParams := {
  v_q : str;
  v_type : SearchType;
  v_limit : nat;
  v_offset : nat;
  v_dateFrom : option str;
  v_dateTo : option str;
  v_projectId : option str
}.

(** [z.enum(["all", "chats", "messages"]).default("all")] *)
Definition parse_type (v : option str) : option SearchType :=
  match v with
  | None => Some all
  | Some s =>
      if Str.eqb s (lit "all") then Some all
      else if Str.eqb s (lit "chats") then Some chats
      else if Str.eqb s (lit "messages") then Some messagesOnly
      else None
  end.

(** [z.coerce.number().min(lo).max(hi).default(d)], [hi] where given. *)
Definition parse_number (lo : Z) (hi : option Z) (d : Z) (v : option Z)
  : option nat :=
  match v with
  | None => Some (Z.to_nat d)
  | Some n =>
      if ((lo <=? n)%Z
          && match hi with Some h => (n <=? h)%Z | None => true end)%bool
      then Some (Z.to_nat n) else None
  end.

(** [z.string().min(1)] on a required parameter. *)
Definition parse_required (v : option str) : option str :=
  match v with
  | Some (c :: s) => Some (c :: s)
  | _ => None
  end.

(** [searchQuerySchema.parse]; [None] stands for the [ZodError]. *)
Definition searchQuerySchema_parse (p : SearchParams)
  : option ValidatedParams :=
  match parse_required (param_q p), parse_type (param_type p),
        parse_number 1 (Some 100%Z) 20 (param_limit p),
        parse_number 0 None 0 (param_offset p) with
  | Some q, Some ty, Some limit, Some offset =>
      Some {| v_q := q; v_type := ty; v_limit := limit; v_offset := offset;
              v_dateFrom := param_dateFrom p; v_dateTo := param_dateTo p;
              v_projectId := param_projectId p |}
  | _, _, _, _ => None
  end.

Record SuggestionParams := {
  sparam_q : option str;
  sparam_limit : option Z
}.

(** [suggestionsQuerySchema.parse] *)
Definition suggestionsQuerySchema_parse (p : SuggestionParams)
  : option (str * nat) :=
  match parse_required (sparam_q p),
        parse_number 1 (Some 20%Z) 5 (sparam_limit p) with
  | Some q, Some limit => Some (q, limit)
  | _, _ => None
  end.

(** The answers of a handler: status 401, status 400, or a body. *)
Inductive Response (A : Type) :=
| Unauthorized
| InvalidParameters
| Success (body : A).

Arguments Unauthorized {A}.
Arguments InvalidParameters {A}.
Arguments Success {A} body.

Definition is_success {A : Type} (r : Response A) : bool :=
  match r with Success _ => true | _ => false end.

Record SearchBody := {
  body_response : SearchResponse;
  body_query : str;
  body_type : SearchType
}.

Record SuggestionBody := {
  body_suggestions : list str;
  body_suggestions_query : str
}.

Section Handlers.

Variable fuzzySearch : list FuzzyItem -> str -> list FuzzyItem.

(** [new Date(s)] for the date parameters. *)
Variable newDate : str -> Date.

(** [s ? new Date(s) : undefined] *)
Definition date_filter (s : option str) : option Date :=
  if truthy s then option_map newDate s else None.

Definition route_filters (uid : str) (v : ValidatedParams) : SearchFilters :=
  {| userId := uid;
     projectId := v_projectId v;
     dateFrom := date_filter (v_dateFrom v);
     dateTo := date_filter (v_dateTo v) |}.

(** The handler of [GET /api/search] for the user id of the session, if
    there is one.  The model covers the runs in which nothing is thrown
    after validation: dates that [new Date] can read and a store that
    raises no error on the queries; the status 500 of the [catch] block,
    which answers the other runs, is not among its outcomes.  What is
    stated of an answer with a body holds of the handler whenever it
    gives one. *)
Definition GET (session : option str) (p : SearchParams)
  : DB (Response SearchBody) :=
  match session with
  | Some (c :: u) =>
      match searchQuerySchema_parse p with
      | None => ret InvalidParameters
      | Some v =>
          response <-
            search_handler fuzzySearch (v_q v) (v_type v)
              (route_filters (c :: u) v) (v_limit v) (v_offset v) ;;
          ret (Success {| body_response := response;
                          body_query := v_q v;
                          body_type := v_type v |})
      end
  | _ => ret Unauthorized
  end.

End Handlers.

(** The handler of [GET /api/search/suggestions], for the runs in which
    nothing is thrown after validation (no status 500), as for [GET]. *)
Definition suggestions_GET (session : option str) (p : SuggestionParams)
  : DB (Response SuggestionBody) :=
  match session with
  | Some (c :: u) =>
      match suggestionsQuerySchema_parse p with
      | None => ret InvalidParameters
      | Some (q, limit) =>
          suggestions <- getSearchSuggestions (c :: u) q limit ;;
          ret (Success {| body_suggestions := suggestions;
                          body_suggestions_query := q |})
      end
  | _ => ret Unauthorized
  end.

(** The parameters [searchQuerySchema] lets through. *)
Definition acceptable (p : SearchParams) : Prop :=
  (exists q, param_q p = Some q /\ q <> [])
  /\ (param_type p = None \/ param_type p = Some (lit "all")
      \/ param_type p = Some (lit "chats")
      \/ param_type p = Some (lit "messages"))
  /\ (forall n, param_limit p = Some n -> (1 <= n <= 100)%Z)
  /\ (forall n, param_offset p = Some n -> (0 <= n)%Z).

(** A result that stems from a chat of the user [uid]: the chat itself
    or one of its messages. *)
Definition owned_by (st : Store) (uid : str) (r : SearchResult.t) : Prop :=
  exists c,
    In c (chatThreadsTable st)
    /\ chatThreads.userId c = uid
    /\ (SearchResult.id r = chatThreads.id c
        \/ meta_chatId (SearchResult.metadata r) = Some (chatThreads.id c)).

(** A request for [alpha] with every other parameter left out, and a
    date reader for requests without dates. *)
Definition alpha_params : SearchParams :=
  {| param_q := Some (lit "alpha"); param_type := None;
     param_limit := None; param_offset := None;
     param_dateFrom := None; param_dateTo := None;
     param_projectId := None |}.

Definition no_date (_ : str) : Date := 0%Z.

Definition test_suggestion_params : SuggestionParams :=
  {| sparam_q := Some (lit "test"); sparam_limit := None |}.

Definition test_suggestion_body : SuggestionBody :=
  {| body_suggestions :=
       result (getSearchSuggestions owner (lit "test") 5 title_store);
     body_suggestions_query := lit "test" |}.

Definition alpha_body : SearchBody :=
  {| body_response :=
       result (search_handler fuzzy_all (lit "alpha") all owner_filters
                 20 0 band_store);
     body_query := lit "alpha";
     body_type := all |}.

(* ================================================================= *)
(** ** The search page *)

(** [data.results] and [data.hasMore] of a response body. *)
Definition data_results (data : SearchBody) : list SearchResult.t :=
  results (body_response data).

Definition data_hasMore (data : SearchBody) : bool :=
  hasMore (body_response data).

(** The state and the two actions of [SearchInterface] that talk to the
    search handler: [performSearch] and [loadMore].  The JSON transport
    is taken to hand parameters and results over unchanged; the loading
    flag, which is off whenever an action starts, and the analytics call
    are left out. *)
Module Client.

Record SearchFilters := {
  type : SearchType;
  dateFrom : option Date;
  dateTo : option Date;
  projectId : option str
}.

Record state := {
  results : list SearchResult.t;
  hasMore : bool;
  offset : nat
}.

Definition type_name (t : SearchType) : str :=
  match t with
  | all => lit "all"
  | chats => lit "chats"
  | messagesOnly => lit "messages"
  end.

Section Page.

Variable fuzzySearch : list FuzzyItem -> str -> list FuzzyItem.
Variable newDate : str -> Date.

(** [date.toISOString()] *)
Variable toISOString : Date -> str.

(** The user id of the session that the request carries. *)
Variable session : option str.

(** The [URLSearchParams] of a search request. *)
Definition request (searchQuery : str) (searchFilters : SearchFilters)
    (searchOffset : nat) : SearchParams :=
  {| param_q := Some searchQuery;
     param_type := Some (type_name (type searchFilters));
     param_limit := Some 20%Z;
     param_offset := Some (Z.of_nat searchOffset);
     param_dateFrom := option_map toISOString (dateFrom searchFilters);
     param_dateTo := option_map toISOString (dateTo searchFilters);
     param_projectId := or_undefined (projectId searchFilters) |}.

Definition performSearch (searchQuery : str) (searchFilters : SearchFilters)
    (searchOffset : nat) (append : bool) (s : state) : DB state :=
  match trim searchQuery with
  | [] => ret {| results := []; hasMore := false; offset := offset s |}
  | _ :: _ =>
      response <-
        GET fuzzySearch newDate session
          (request searchQuery searchFilters searchOffset) ;;
      match response with
      | Success data =>
          let found := data_results data in
          ret {| results := if append then results s ++ found else found;
                 hasMore := data_hasMore data;
                 offset := searchOffset + length found |}
      | _ => ret {| results := []; hasMore := false; offset := offset s |}
      end
  end.

Definition loadMore (debouncedQuery : str) (filters : SearchFilters)
    (s : state) : DB state :=
  match hasMore s, debouncedQuery with
  | true, _ :: _ => performSearch debouncedQuery filters (offset s) true s
  | _, _ => ret s
  end.

End Page.

End Client.

(** Stores with [n] chats titled [alpha] and [n] messages [alpha] in the
    first chat, all of [owner]. *)
Definition numbered (prefix : string) (i : nat) : str :=
  lit prefix ++ [ascii_of_nat (65 + i)].

Definition many_store (n : nat) : Store :=
  {| chatThreadsTable :=
       map (fun i => chatThreads.mk (numbered "c" i) (Some (lit "alpha"))
                       owner None 0 (Z.of_nat i))
         (seq 0 n);
     messagesTable :=
       map (fun i => messages.mk (numbered "m" i) (lit "alpha") user
                       (numbered "c" 0) (Z.of_nat i))
         (seq 0 n);
     tieOrder := table_order |}.

(** The filters the handler builds from the request of the page for the
    user [uid]. *)
Definition page_server_filters (newDate : str -> Date)
    (toISOString : Date -> str) (uid : str) (f : Client.SearchFilters)
  : SearchFilters :=
  {| userId := uid;
     projectId := or_undefined (Client.projectId f);
     dateFrom := date_filter newDate
                   (option_map toISOString (Client.dateFrom f));
     dateTo := date_filter newDate
                 (option_map toISOString (Client.dateTo f)) |}.

Definition page_filters (t : SearchType) : Client.SearchFilters :=
  {| Client.type := t; Client.dateFrom := None; Client.dateTo := None;
     Client.projectId := None |}.

Definition fresh_page : Client.state :=
  {| Client.results := []; Client.hasMore := false; Client.offset := 0 |}.

Definition no_iso (_ : Date) : str := [].

(* ================================================================= *)
(** ** Stores without ties *)

(** No two chats that the query matches have both the same score and
    the same [updatedAt]; no two messages it matches have both the same
    score and the same [createdAt]. *)
Definition untied_chats (st : Store) (searchTerms : str) (f : SearchFilters)
  : Prop :=
  NoDup
    (map (fun c => (chat_score searchTerms (chatThreads.title c),
                    chatThreads.updatedAt c))
       (chat_matches st searchTerms f)).

Definition untied_messages (st : Store) (searchTerms : str)
    (f : SearchFilters) : Prop :=
  NoDup
    (map (fun mc => (message_score searchTerms (messages.content (fst mc)),
                     messages.createdAt (fst mc)))
       (message_matches st searchTerms f)).

Definition untied (st : Store) (type : SearchType) (searchTerms : str)
    (f : SearchFilters) : Prop :=
  match type with
  | all => True
  | chats => untied_chats st searchTerms f
  | messagesOnly => untied_messages st searchTerms f
  end.

(** The values of the two CASE expressions. *)
Definition bands : list Q := [100; 90; 80; 70; 60; 50; 40; 30]%Q.

(** Four chats that tie on [updatedAt], in a store that hands the first
    two out in the opposite order when asked for two rows at offset 0. *)
Definition tied_order (q : Query) (i : nat) : nat :=
  match q with
  | SelectChats _ _ (Some 2) (Some 0) =>
      match i with 0 => 1 | 1 => 0 | _ => i end
  | _ => i
  end.

Definition tied_store : Store :=
  {| chatThreadsTable :=
       [ mkChat "t0" "alpha" 5; mkChat "t1" "alpha" 5;
         mkChat "t2" "alpha" 5; mkChat "t3" "alpha" 5 ];
     messagesTable := [];
     tieOrder := tied_order |}.

Unset Implicit Arguments.

(* ================================================================= *)
(** ** Facts about strings and patterns *)

Lemma eqb_refl (a : str) : Str.eqb a a = true.
Proof.
  induction a as [|c a IH]; simpl; [reflexivity|].
  now rewrite Ascii.eqb_refl.
Qed.

Lemma eqb_eq (a b : str) : Str.eqb a b = true <-> a = b.
Proof.
  split.
  - revert b; induction a as [|c a IH]; destruct b as [|d b]; simpl;
      try congruence.
    intros H. apply andb_true_iff in H as [Hc Hr].
    apply Ascii.eqb_eq in Hc. f_equal; auto.
  - intros ->. apply eqb_refl.
Qed.

Lemma eqb_neq (a b : str) : Str.eqb a b = false <-> a <> b.
Proof.
  rewrite <- eqb_eq. destruct (Str.eqb a b); split; congruence.
Qed.

Lemma lower_char_idem (c : ascii) : lower_char (lower_char c) = lower_char c.
Proof.
  destruct c as [[] [] [] [] [] [] [] []]; vm_compute; reflexivity.
Qed.

Lemma toLowerCase_idem (s : str) : toLowerCase (toLowerCase s) = toLowerCase s.
Proof.
  unfold toLowerCase. rewrite map_map.
  apply map_ext. intros c. apply lower_char_idem.
Qed.

Lemma trimStart_spaces (s : str) :
  forallb is_space s = true -> trimStart s = [].
Proof.
  induction s as [|c s IH]; simpl; [reflexivity|].
  intros H. apply andb_true_iff in H as [Hc Hs].
  rewrite Hc. auto.
Qed.

Lemma trim_spaces (s : str) : forallb is_space s = true -> trim s = [].
Proof.
  intros H. unfold trim, trimEnd.
  rewrite (trimStart_spaces s H). reflexivity.
Qed.


Lemma like_pct (p s : str) : like (pct ++ p) s = any_suffix (like p) s.
Proof.
  change (pct ++ p) with ("%"%char :: p).
  induction s as [|d s IH]; simpl; [reflexivity|].
  f_equal. exact IH.
Qed.

Lemma like_pct_only (s : str) : like pct s = true.
Proof.
  change (like (pct ++ []) s = true). rewrite like_pct.
  induction s as [|d s IH]; [reflexivity|].
  change (false || any_suffix (like []) s = true). exact IH.
Qed.

Lemma any_suffix_ext (P Q : str -> bool) (s : str) :
  (forall t, P t = Q t) -> any_suffix P s = any_suffix Q s.
Proof.
  intros H. induction s as [|d s IH]; simpl; rewrite H; [reflexivity|].
  now rewrite IH.
Qed.

Lemma any_suffix_true (P : str -> bool) (s : str) :
  any_suffix P s = true <-> exists a b, s = a ++ b /\ P b = true.
Proof.
  induction s as [|d s IH]; simpl.
  - rewrite orb_false_r. split.
    + intros H. exists [], []. auto.
    + intros (a & b & E & H). symmetry in E.
      apply app_eq_nil in E as [_ ->]. exact H.
  - rewrite orb_true_iff, IH. split.
    + intros [H | (a & b & -> & H)].
      * exists [], (d :: s). auto.
      * exists (d :: a), b. auto.
    + intros (a & b & E & H). destruct a as [|x a]; simpl in E.
      * left. now subst b.
      * right. injection E as -> ->. eauto.
Qed.

(** A pattern character that is not special matches itself only. *)
Lemma like_plain_cons (c : ascii) (p s : str) :
  is_meta c = false ->
  like (c :: p) s =
  match s with [] => false | d :: s' => Ascii.eqb c d && like p s' end.
Proof.
  unfold is_meta. intros H.
  apply orb_false_iff in H as [H H3]. apply orb_false_iff in H as [H1 H2].
  simpl. rewrite H1, H2, H3. reflexivity.
Qed.

Lemma like_plain_app (q p s : str) :
  plain q = true ->
  like (q ++ p) s = startsWith s q && like p (skipn (length q) s).
Proof.
  revert s. induction q as [|c q IH]; intros s H; [reflexivity|].
  simpl in H. apply andb_true_iff in H as [Hc Hq].
  apply negb_true_iff in Hc.
  simpl app. rewrite like_plain_cons by exact Hc.
  destruct s as [|d s]; [reflexivity|].
  simpl. rewrite IH by exact Hq. now rewrite andb_assoc.
Qed.

Lemma startsWith_true (s q : str) :
  startsWith s q = true <-> exists b, s = q ++ b.
Proof.
  revert s. induction q as [|c q IH]; intros s; simpl.
  - split; eauto.
  - destruct s as [|d s].
    + split; [discriminate | intros [b E]; discriminate].
    + rewrite andb_true_iff, Ascii.eqb_eq, IH. split.
      * intros [-> [b ->]]. eauto.
      * intros [b E]. injection E as -> ->. eauto.
Qed.

Lemma endsWith_true (s q : str) :
  endsWith s q = true <-> exists a, s = a ++ q.
Proof.
  unfold endsWith. rewrite startsWith_true. split.
  - intros [b E]. exists (rev b).
    rewrite <- (rev_involutive s), E, rev_app_distr, rev_involutive.
    reflexivity.
  - intros [a ->]. exists (rev a). apply rev_app_distr.
Qed.

Lemma includes_any_suffix (s q : str) :
  includes s q = any_suffix (fun t => startsWith t q) s.
Proof.
  induction s as [|d s IH]; simpl; [reflexivity|]. now rewrite IH.
Qed.

(** For search terms without special characters the three patterns are
    the three string tests. *)
Lemma like_prefix_pat (q s : str) :
  plain q = true -> like (prefix_pat q) s = startsWith s q.
Proof.
  intros H. unfold prefix_pat.
  rewrite like_plain_app by exact H.
  rewrite like_pct_only. apply andb_true_r.
Qed.

Lemma like_contains_pat (q s : str) :
  plain q = true -> like (contains_pat q) s = includes s q.
Proof.
  intros H. unfold contains_pat.
  rewrite like_pct, includes_any_suffix.
  apply any_suffix_ext. intros t.
  fold (prefix_pat q). now apply like_prefix_pat.
Qed.

Lemma like_plain_exact (q s : str) :
  plain q = true -> like q s = Str.eqb q s.
Proof.
  revert s. induction q as [|c q IH]; intros s H.
  - destruct s; reflexivity.
  - simpl in H. apply andb_true_iff in H as [Hc Hq].
    apply negb_true_iff in Hc.
    rewrite like_plain_cons by exact Hc.
    destruct s as [|d s]; [reflexivity|].
    simpl. now rewrite IH.
Qed.

Lemma like_suffix_pat (q s : str) :
  plain q = true -> like (suffix_pat q) s = endsWith s q.
Proof.
  intros H. unfold suffix_pat. rewrite like_pct.
  rewrite (any_suffix_ext (like q) (Str.eqb q)) by
    (intros t; now apply like_plain_exact).
  apply eq_true_iff_eq.
  rewrite any_suffix_true, endsWith_true. split.
  - intros (a & b & -> & E). apply eqb_eq in E. subst b. eauto.
  - intros [a ->]. exists a, q. split; [reflexivity | apply eqb_refl].
Qed.

(* ================================================================= *)
(** ** Facts about stable sorting *)

Section StableSortFacts.

Variable A : Type.
Variable le : A -> A -> bool.

Let R (a b : A) : Prop := le a b = true.

Lemma insert_perm (x : A) (l : list A) : Permutation (insert le x l) (x :: l).
Proof.
  induction l as [|y l IH]; simpl; [reflexivity|].
  destruct (le x y); [reflexivity|].
  rewrite IH. apply perm_swap.
Qed.

Lemma stable_sort_perm (l : list A) : Permutation (stable_sort le l) l.
Proof.
  induction l as [|x l IH]; simpl; [reflexivity|].
  rewrite insert_perm. now constructor.
Qed.

Lemma insert_hd (x : A) (l : list A) : HdRel R x l -> insert le x l = x :: l.
Proof.
  intros H. destruct H as [|y l H]; simpl; [reflexivity|].
  unfold R in H. now rewrite H.
Qed.

(** Sorting leaves a sorted array as it is. *)
Lemma stable_sort_sorted_id (l : list A) : Sorted R l -> stable_sort le l = l.
Proof.
  induction 1 as [|x l Hs IH Hd]; simpl; [reflexivity|].
  rewrite IH. now apply insert_hd.
Qed.

Hypothesis le_total : forall a b, le a b = true \/ le b a = true.
Hypothesis le_trans :
  forall a b c, le a b = true -> le b c = true -> le a c = true.

Lemma insert_sorted (x : A) (l : list A) :
  StronglySorted R l -> StronglySorted R (insert le x l).
Proof.
  induction 1 as [|y l Hs IH Hall]; simpl.
  - repeat constructor.
  - destruct (le x y) eqn:E.
    + constructor; [now constructor|].
      constructor; [exact E|].
      eapply Forall_impl; [|exact Hall].
      intros z Hz. now apply le_trans with y.
    + constructor; [exact IH|].
      assert (Hyx : R y x) by (destruct (le_total x y); congruence).
      apply Permutation_Forall with (x :: l).
      * symmetry. apply insert_perm.
      * constructor; assumption.
Qed.

Lemma stable_sort_sorted (l : list A) : StronglySorted R (stable_sort le l).
Proof.
  induction l as [|x l IH]; simpl; [constructor | now apply insert_sorted].
Qed.

End StableSortFacts.

Lemma order_desc2_spec {A : Type} (k1 : A -> Q) (k2 : A -> Z) (a b : A) :
  order_desc2 k1 k2 a b = true <->
  ((k1 b < k1 a)%Q \/ ((k1 a == k1 b)%Q /\ (k2 b <= k2 a)%Z)).
Proof.
  unfold order_desc2.
  destruct (Qcompare_spec (k1 a) (k1 b)) as [E | L | G].
  - rewrite Z.leb_le. split; [now right | intros [H | [_ H]]; [lra | exact H]].
  - split; [discriminate | intros [H | [H _]]; lra].
  - split; [now left | reflexivity].
Qed.

Lemma order_desc2_total {A : Type} (k1 : A -> Q) (k2 : A -> Z) (a b : A) :
  order_desc2 k1 k2 a b = true \/ order_desc2 k1 k2 b a = true.
Proof.
  rewrite !order_desc2_spec.
  destruct (Qcompare_spec (k1 a) (k1 b)) as [E | L | G]; auto.
  destruct (Z.le_ge_cases (k2 a) (k2 b)).
  - right. right. split; [now symmetry | assumption].
  - left. right. split; assumption.
Qed.

Lemma order_desc2_trans {A : Type} (k1 : A -> Q) (k2 : A -> Z) (a b c : A) :
  order_desc2 k1 k2 a b = true -> order_desc2 k1 k2 b c = true ->
  order_desc2 k1 k2 a c = true.
Proof.
  rewrite !order_desc2_spec.
  intros [H1 | [E1 H1]] [H2 | [E2 H2]].
  - left. lra.
  - left. lra.
  - left. lra.
  - right. split; [lra | lia].
Qed.

(** ** Facts about sorted lists *)

Lemma StronglySorted_app {A : Type} (R : A -> A -> Prop) (l1 l2 : list A) :
  StronglySorted R l1 -> StronglySorted R l2 ->
  (forall a b, In a l1 -> In b l2 -> R a b) ->
  StronglySorted R (l1 ++ l2).
Proof.
  intros H1 H2 H. induction H1 as [|x l1 Hs IH Hall]; simpl; [exact H2|].
  constructor.
  - apply IH. intros a b Ha Hb. apply H; [now right | exact Hb].
  - apply Forall_app. split; [exact Hall|].
    apply Forall_forall. intros b Hb. apply H; [now left | exact Hb].
Qed.

Lemma StronglySorted_skipn {A : Type} (R : A -> A -> Prop) (n : nat)
    (l : list A) :
  StronglySorted R l -> StronglySorted R (skipn n l).
Proof.
  revert l. induction n as [|n IH]; intros l H; [exact H|].
  destruct H as [|x l Hs _]; simpl; [constructor | now apply IH].
Qed.

Lemma In_firstn_inv {A : Type} (n : nat) (l : list A) (x : A) :
  In x (firstn n l) -> In x l.
Proof.
  revert l. induction n as [|n IH]; intros [|z l]; simpl; try tauto.
  intros [H | H]; [now left | right; auto].
Qed.

Lemma In_skipn_inv {A : Type} (n : nat) (l : list A) (x : A) :
  In x (skipn n l) -> In x l.
Proof.
  revert l. induction n as [|n IH]; intros [|z l]; simpl; try tauto.
  intros H. right. auto.
Qed.

Lemma StronglySorted_firstn {A : Type} (R : A -> A -> Prop) (n : nat)
    (l : list A) :
  StronglySorted R l -> StronglySorted R (firstn n l).
Proof.
  revert l. induction n as [|n IH]; intros l H; [constructor|].
  destruct H as [|x l Hs Hall]; simpl; [constructor|].
  constructor; [now apply IH|].
  apply Forall_forall. intros y Hy.
  rewrite Forall_forall in Hall. apply Hall.
  now apply In_firstn_inv in Hy.
Qed.

Lemma StronglySorted_page {A : Type} (R : A -> A -> Prop)
    (limit offset : option nat) (l : list A) :
  StronglySorted R l -> StronglySorted R (page limit offset l).
Proof.
  intros H. unfold page.
  destruct limit, offset;
    auto using StronglySorted_firstn, StronglySorted_skipn.
Qed.

Lemma StronglySorted_map {A B : Type} (R : B -> B -> Prop) (f : A -> B)
    (l : list A) :
  StronglySorted (fun a b => R (f a) (f b)) l -> StronglySorted R (map f l).
Proof.
  induction 1 as [|x l Hs IH Hall]; simpl; constructor; [exact IH|].
  apply Forall_map. exact Hall.
Qed.

Lemma StronglySorted_weaken {A : Type} (R S : A -> A -> Prop) (l : list A) :
  (forall a b, R a b -> S a b) -> StronglySorted R l -> StronglySorted S l.
Proof.
  intros H. induction 1 as [|x l Hs IH Hall]; constructor; [exact IH|].
  eapply Forall_impl; [|exact Hall]. intros b. apply H.
Qed.

Lemma In_page {A : Type} (limit offset : option nat) (l : list A) (x : A) :
  In x (page limit offset l) -> In x l.
Proof.
  unfold page. intros H.
  destruct limit, offset; eauto using In_firstn_inv, In_skipn_inv.
Qed.

(* ================================================================= *)
(** ** The chat query *)

Lemma LOWER_contains_pat (t : str) :
  LOWER (contains_pat t) = contains_pat (toLowerCase t).
Proof.
  unfold LOWER, contains_pat, toLowerCase. now rewrite !map_app.
Qed.

(** A row that passes the WHERE clause takes the first branch of the
    CASE expression. *)
Lemma chat_where_score (t : str) (f : SearchFilters) (c : chatThreads.row) :
  toLowerCase t = t ->
  chat_where t f c = true ->
  chat_score t (chatThreads.title c) = 100%Q.
Proof.
  intros Ht H. unfold chat_where in H.
  apply andb_true_iff in H as [_ H].
  unfold chat_score.
  destruct (chatThreads.title c) as [s|]; [|discriminate H].
  unfold ilike_null, ilike in H. rewrite LOWER_contains_pat, Ht in H.
  unfold lower_null, option_map, like_null. now rewrite H.
Qed.

Lemma In_stable_sort {A : Type} (le : A -> A -> bool) (l : list A) (x : A) :
  In x (stable_sort le l) <-> In x l.
Proof.
  split; apply Permutation_in;
    [apply stable_sort_perm | symmetry; apply stable_sort_perm].
Qed.

Lemma map_snd_number_from {A : Type} (i : nat) (rows : list A) :
  map snd (number_from i rows) = rows.
Proof.
  revert i. induction rows as [|r rows IH]; intros i; simpl;
    [reflexivity | now rewrite IH].
Qed.

(** The store reaches every matched row once, whatever its order. *)
Lemma arrange_perm {A : Type} (st : Store) (q : Query) (rows : list A) :
  Permutation (arrange st q rows) rows.
Proof.
  unfold arrange. rewrite <- (map_snd_number_from 0 rows) at 2.
  apply Permutation_map, stable_sort_perm.
Qed.

Lemma In_arrange {A : Type} (st : Store) (q : Query) (rows : list A)
    (x : A) :
  In x (arrange st q rows) <-> In x rows.
Proof.
  split; apply Permutation_in;
    [apply arrange_perm | symmetry; apply arrange_perm].
Qed.

Lemma length_arrange {A : Type} (st : Store) (q : Query) (rows : list A) :
  length (arrange st q rows) = length rows.
Proof. apply Permutation_length, arrange_perm. Qed.

Lemma In_run_select_chats (st : Store) (t : str) (f : SearchFilters)
    (limit offset : option nat) (h : chatHit.row) :
  In h (run_select_chats st t f limit offset) ->
  exists c, In c (chatThreadsTable st) /\ chat_where t f c = true
            /\ h = chat_select t c.
Proof.
  unfold run_select_chats. intros H.
  apply In_page, In_stable_sort, in_map_iff in H as (c & <- & H).
  apply In_arrange, filter_In in H as [Hin Hw]. eauto.
Qed.

Lemma run_select_chats_sorted (st : Store) (t : str) (f : SearchFilters)
    (limit offset : option nat) :
  StronglySorted (fun a b => chat_order a b = true)
    (run_select_chats st t f limit offset).
Proof.
  unfold run_select_chats. apply StronglySorted_page.
  apply stable_sort_sorted.
  - intros a b. apply order_desc2_total.
  - intros a b c. apply order_desc2_trans.
Qed.

Lemma chat_order_ranked (a b : chatHit.row) :
  chat_order a b = true ->
  ranked_before (chat_to_result a) (chat_to_result b).
Proof.
  unfold chat_order. rewrite order_desc2_spec. exact (fun H => H).
Qed.

(** ** The fuzzy block *)

Lemma find_has_id (results : list SearchResult.t) (i : str) :
  has_id results i = false ->
  find (fun r => Str.eqb (SearchResult.id r) i) results = None.
Proof.
  unfold has_id. induction results as [|r results IH]; simpl;
    [reflexivity|].
  intros H. apply orb_false_iff in H as [H1 H2].
  rewrite H1. auto.
Qed.

Lemma fold_push_fuzzy_id (results : list SearchResult.t)
    (items : list FuzzyItem) :
  (forall it, In it items -> has_id results (item_id it) = false) ->
  fold_left push_fuzzy items results = results.
Proof.
  induction items as [|it items IH]; intros H; simpl; [reflexivity|].
  unfold push_fuzzy at 2. rewrite find_has_id by (apply H; now left).
  apply IH. intros it' Hin. apply H. now right.
Qed.

(** Whatever the fuzzy scorer answers, the block leaves [results] as
    they are: a candidate that survives the filter on [existingIds] is
    not found by [results.find]. *)
Lemma fuzzy_fill_id (fuzzySearch : list FuzzyItem -> str -> list FuzzyItem)
    (query : str) (limit : nat) (results : list SearchResult.t) :
  fuzzy_fill fuzzySearch query limit results = results.
Proof.
  unfold fuzzy_fill. apply fold_push_fuzzy_id.
  intros it Hin. unfold slice in Hin.
  apply In_firstn_inv, In_skipn_inv, filter_In in Hin as [_ Hin].
  now apply negb_true_iff in Hin.
Qed.

(** ** Sorting by score *)

Lemma ranked_before_byScoreDesc (a b : SearchResult.t) :
  ranked_before a b -> Qle_bool (byScoreDesc a b) 0%Q = true.
Proof.
  intros H. apply Qle_bool_iff. unfold byScoreDesc.
  destruct H as [H | [H _]]; lra.
Qed.

Lemma Array_sort_ranked (l : list SearchResult.t) :
  StronglySorted ranked_before l -> Array_sort byScoreDesc l = l.
Proof.
  intros H. unfold Array_sort. apply stable_sort_sorted_id.
  apply StronglySorted_Sorted.
  eapply StronglySorted_weaken; [|exact H].
  intros a b. apply ranked_before_byScoreDesc.
Qed.

Lemma chat_page_ranked (st : Store) (t : str) (f : SearchFilters)
    (limit offset : option nat) :
  StronglySorted ranked_before
    (map chat_to_result (run_select_chats st t f limit offset)).
Proof.
  apply StronglySorted_map.
  eapply StronglySorted_weaken; [|apply run_select_chats_sorted].
  intros a b. apply chat_order_ranked.
Qed.

(** ** What the three searches compute *)

Section ServiceFacts.

Variable fuzzySearch : list FuzzyItem -> str -> list FuzzyItem.

Lemma searchChats_run (query : str) (f : SearchFilters)
    (limit offset : nat) (st : Store) :
  searchChats fuzzySearch query f limit offset st =
  match toLowerCase (trim query) with
  | [] => ([], [])
  | _ :: _ =>
      (map chat_to_result
         (run_select_chats st (toLowerCase (trim query)) f
            (Some limit) (Some offset)),
       [SelectChats (toLowerCase (trim query)) f
          (Some limit) (Some offset)])
  end.
Proof.
  unfold searchChats.
  destruct (toLowerCase (trim query)) as [|c t] eqn:E; [reflexivity|].
  unfold bind, db_select_chats, ret. cbv beta iota zeta. cbn [fst snd].
  rewrite app_nil_r, fuzzy_fill_id. f_equal.
  match goal with |- context [if ?b then _ else _] => destruct b end;
    apply Array_sort_ranked, chat_page_ranked.
Qed.

Lemma searchMessages_run (query : str) (f : SearchFilters)
    (limit offset : nat) (st : Store) :
  searchMessages query f limit offset st =
  match toLowerCase (trim query) with
  | [] => ([], [])
  | _ :: _ =>
      (map message_to_result
         (run_select_messages st (toLowerCase (trim query)) f
            (Some limit) (Some offset)),
       [SelectMessages (toLowerCase (trim query)) f
          (Some limit) (Some offset)])
  end.
Proof.
  unfold searchMessages.
  destruct (toLowerCase (trim query)) as [|c t]; reflexivity.
Qed.

End ServiceFacts.

(* ================================================================= *)
(** ** Chat search: scores and the fuzzy block *)

Lemma trim_lower_idem (query : str) :
  toLowerCase (toLowerCase (trim query)) = toLowerCase (trim query).
Proof. apply toLowerCase_idem. Qed.

Lemma In_searchChats (fuzzySearch : list FuzzyItem -> str -> list FuzzyItem)
    (query : str) (f : SearchFilters) (limit offset : nat) (st : Store)
    (r : SearchResult.t) :
  In r (result (searchChats fuzzySearch query f limit offset st)) ->
  exists c,
    In c (chatThreadsTable st)
    /\ chat_where (toLowerCase (trim query)) f c = true
    /\ r = chat_to_result (chat_select (toLowerCase (trim query)) c).
Proof.
  rewrite searchChats_run.
  destruct (toLowerCase (trim query)) as [|a t] eqn:E; [intros []|].
  unfold result, fst. intros H.
  apply in_map_iff in H as (h & <- & H).
  apply In_run_select_chats in H as (c & Hc & Hw & ->). eauto.
Qed.

Lemma searchChats_score_100
    (fuzzySearch : list FuzzyItem -> str -> list FuzzyItem)
    (query : str) (f : SearchFilters) (limit offset : nat) (st : Store)
    (r : SearchResult.t) :
  In r (result (searchChats fuzzySearch query f limit offset st)) ->
  SearchResult.score r = 100%Q.
Proof.
  intros H. apply In_searchChats in H as (c & _ & Hw & ->).
  simpl. eapply chat_where_score; [apply trim_lower_idem | exact Hw].
Qed.

(** C1: on titles that start with, end with, merely contain and equal
    the query [alpha], the specified bands are 80, 60, 40 and 100; the
    chat query scores all four titles 100. *)
Theorem searchChats_scores_every_band_100 :
  forall fuzzySearch,
    map (fun r => (SearchResult.title r,
                   title_band_spec (lit "alpha")
                     (toLowerCase (SearchResult.title r)),
                   SearchResult.score r))
      (result (searchChats fuzzySearch (lit "alpha") owner_filters 10 0
                 band_store))
    = [ (lit "Alpha Notes", 80, 100);
        (lit "Project Alpha", 60, 100);
        (lit "My Alpha Plan", 40, 100);
        (lit "alpha", 100, 100) ]%Q.
Proof.
  intros fuzzySearch. rewrite searchChats_run. vm_compute. reflexivity.
Qed.

(** C3: the owner has three chats, two whose titles hold [alpha] and
    one a transposition away; with room for ten results, chat search
    returns the two store matches at score 100 and nothing else,
    whatever the fuzzy scorer answers. *)
Theorem searchChats_adds_no_fuzzy_result :
  forall fuzzySearch,
    map (fun r => (SearchResult.id r, SearchResult.score r))
      (result (searchChats fuzzySearch (lit "alpha") owner_filters 10 0
                 typo_store))
    = [ (lit "c1", 100); (lit "c2", 100) ]%Q.
Proof.
  intros fuzzySearch. rewrite searchChats_run. vm_compute. reflexivity.
Qed.

(** C4: for every query and store the fuzzy block of [searchChats]
    leaves the results of the store query as they are, whatever the
    fuzzy scorer returns; the results are the rows of the store page,
    and each of them has score 100. *)
Theorem searchChats_fuzzy_adds_nothing_all_100 :
  forall fuzzySearch query f limit offset st,
    (forall results,
        fuzzy_fill fuzzySearch query limit results = results)
    /\ result (searchChats fuzzySearch query f limit offset st)
       = match toLowerCase (trim query) with
         | [] => []
         | _ :: _ =>
             map chat_to_result
               (run_select_chats st (toLowerCase (trim query)) f
                  (Some limit) (Some offset))
         end
    /\ Forall (fun r => SearchResult.score r = 100%Q)
         (result (searchChats fuzzySearch query f limit offset st)).
Proof.
  intros fuzzySearch query f limit offset st. split; [|split].
  - intros results. apply fuzzy_fill_id.
  - rewrite searchChats_run.
    destruct (toLowerCase (trim query)); reflexivity.
  - apply Forall_forall. intros r. apply searchChats_score_100.
Qed.

(* ================================================================= *)
(** ** Message search *)

Lemma In_messages_join (st : Store) (m : messages.row) (c : chatThreads.row) :
  In (m, c) (messages_join st) ->
  In m (messagesTable st) /\ In c (chatThreadsTable st).
Proof.
  unfold messages_join. intros H.
  apply in_flat_map in H as (m' & Hm & H).
  apply in_map_iff in H as (c' & E & H).
  injection E as -> ->. apply filter_In in H as [H _]. auto.
Qed.

Lemma In_run_select_messages (st : Store) (t : str) (f : SearchFilters)
    (limit offset : option nat) (h : messageHit.row) :
  In h (run_select_messages st t f limit offset) ->
  exists m c,
    In m (messagesTable st) /\ In c (chatThreadsTable st)
    /\ message_where t f (m, c) = true
    /\ h = message_select t (m, c).
Proof.
  unfold run_select_messages. intros H.
  apply In_page, In_stable_sort, in_map_iff in H as ([m c] & <- & H).
  apply In_arrange, filter_In in H as [Hin Hw].
  apply In_messages_join in Hin as [Hm Hc].
  exists m, c. auto.
Qed.

Lemma message_where_contains (t : str) (f : SearchFilters)
    (m : messages.row) (c : chatThreads.row) :
  toLowerCase t = t ->
  message_where t f (m, c) = true ->
  like (contains_pat t) (LOWER (messages.content m)) = true.
Proof.
  intros Ht H. unfold message_where in H.
  apply andb_true_iff in H as [H _]. apply andb_true_iff in H as [_ H].
  unfold ilike in H. now rewrite LOWER_contains_pat, Ht in H.
Qed.

Lemma message_score_cases (t content : str) :
  like (contains_pat t) (LOWER content) = true ->
  message_score t content = 90%Q \/ message_score t content = 70%Q
  \/ message_score t content = 50%Q.
Proof.
  intros H. unfold message_score. rewrite H.
  destruct (like (prefix_pat t) (LOWER content)); [now left|].
  destruct (like (suffix_pat t) (LOWER content)); auto.
Qed.

Lemma run_select_messages_sorted (st : Store) (t : str) (f : SearchFilters)
    (limit offset : option nat) :
  StronglySorted (fun a b => message_order a b = true)
    (run_select_messages st t f limit offset).
Proof.
  unfold run_select_messages. apply StronglySorted_page.
  apply stable_sort_sorted.
  - intros a b. apply order_desc2_total.
  - intros a b c. apply order_desc2_trans.
Qed.

Lemma message_order_ranked (a b : messageHit.row) :
  message_order a b = true ->
  ranked_before (message_to_result a) (message_to_result b).
Proof.
  unfold message_order. rewrite order_desc2_spec. exact (fun H => H).
Qed.

Lemma message_page_ranked (st : Store) (t : str) (f : SearchFilters)
    (limit offset : option nat) :
  StronglySorted ranked_before
    (map message_to_result (run_select_messages st t f limit offset)).
Proof.
  apply StronglySorted_map.
  eapply StronglySorted_weaken; [|apply run_select_messages_sorted].
  intros a b. apply message_order_ranked.
Qed.

Lemma In_searchMessages (query : str) (f : SearchFilters)
    (limit offset : nat) (st : Store) (r : SearchResult.t) :
  In r (result (searchMessages query f limit offset st)) ->
  exists m c,
    In m (messagesTable st) /\ In c (chatThreadsTable st)
    /\ message_where (toLowerCase (trim query)) f (m, c) = true
    /\ r = message_to_result
             (message_select (toLowerCase (trim query)) (m, c)).
Proof.
  rewrite searchMessages_run.
  destruct (toLowerCase (trim query)) as [|a t] eqn:E; [intros []|].
  unfold result, fst. intros H.
  apply in_map_iff in H as (h & <- & H).
  apply In_run_select_messages in H as (m & c & Hm & Hc & Hw & ->).
  exists m, c. auto.
Qed.

Lemma searchMessages_score_cases (query : str) (f : SearchFilters)
    (limit offset : nat) (st : Store) (r : SearchResult.t) :
  In r (result (searchMessages query f limit offset st)) ->
  SearchResult.score r = 90%Q \/ SearchResult.score r = 70%Q
  \/ SearchResult.score r = 50%Q.
Proof.
  intros H. apply In_searchMessages in H as (m & c & _ & _ & Hw & ->).
  simpl. apply message_score_cases.
  eapply message_where_contains; [apply trim_lower_idem | exact Hw].
Qed.

(* ================================================================= *)
(** ** Combined search *)

Lemma slice_0 {A : Type} (n : nat) (l : list A) : slice 0 n l = firstn n l.
Proof. unfold slice. now rewrite Nat.sub_0_r. Qed.

Section CombinedFacts.

Variable fuzzySearch : list FuzzyItem -> str -> list FuzzyItem.

Lemma chats_then_messages_ranked (query : str) (f : SearchFilters)
    (n1 o1 n2 o2 : nat) (st : Store) :
  StronglySorted ranked_before
    (result (searchChats fuzzySearch query f n1 o1 st)
     ++ result (searchMessages query f n2 o2 st)).
Proof.
  apply StronglySorted_app.
  - rewrite searchChats_run.
    destruct (toLowerCase (trim query)); [constructor|].
    apply chat_page_ranked.
  - rewrite searchMessages_run.
    destruct (toLowerCase (trim query)); [constructor|].
    apply message_page_ranked.
  - intros a b Ha Hb. left.
    rewrite (searchChats_score_100 _ _ _ _ _ _ _ Ha).
    destruct (searchMessages_score_cases _ _ _ _ _ _ Hb) as [E | [E | E]];
      rewrite E; reflexivity.
Qed.

Lemma searchAll_run (query : str) (f : SearchFilters) (limit : nat)
    (st : Store) :
  searchAll fuzzySearch query f limit st =
  (firstn limit
     (result (searchChats fuzzySearch query f (ceil_half limit) 0 st)
      ++ result (searchMessages query f (ceil_half limit) 0 st)),
   accesses (searchChats fuzzySearch query f (ceil_half limit) 0 st)
   ++ accesses (searchMessages query f (ceil_half limit) 0 st)).
Proof.
  unfold searchAll, bind, ret, result, accesses.
  cbv beta zeta. cbn [fst snd].
  rewrite app_nil_r, slice_0. f_equal. f_equal.
  apply Array_sort_ranked, chats_then_messages_ranked.
Qed.

End CombinedFacts.

(** C5: the lists returned by [searchChats], [searchMessages] and the
    combined search are sorted by score, highest first, and of two
    results with the same score the more recent one comes first. *)
Theorem search_results_ranked :
  forall fuzzySearch query f limit offset st,
    StronglySorted ranked_before
      (result (searchChats fuzzySearch query f limit offset st))
    /\ StronglySorted ranked_before
         (result (searchMessages query f limit offset st))
    /\ StronglySorted ranked_before
         (result (searchAll fuzzySearch query f limit st)).
Proof.
  intros fuzzySearch query f limit offset st. split; [|split].
  - rewrite searchChats_run.
    destruct (toLowerCase (trim query)); [constructor|].
    apply chat_page_ranked.
  - rewrite searchMessages_run.
    destruct (toLowerCase (trim query)); [constructor|].
    apply message_page_ranked.
  - rewrite searchAll_run. unfold result at 1. cbn [fst].
    apply StronglySorted_firstn, chats_then_messages_ranked.
Qed.





Lemma count_type_app (k : ResultType) (l1 l2 : list SearchResult.t) :
  count_type k (l1 ++ l2) = count_type k l1 + count_type k l2.
Proof. unfold count_type. now rewrite filter_app, length_app. Qed.

Lemma count_type_all (k : ResultType) (l : list SearchResult.t) :
  Forall (fun r => SearchResult.type r = k) l -> count_type k l = length l.
Proof.
  unfold count_type. induction 1 as [|r l Hr _ IH]; simpl; [reflexivity|].
  unfold is_type at 1. rewrite Hr. destruct k; simpl; now rewrite IH.
Qed.

Lemma count_type_none (k k' : ResultType) (l : list SearchResult.t) :
  k <> k' ->
  Forall (fun r => SearchResult.type r = k') l -> count_type k l = 0.
Proof.
  intros Hk. unfold count_type.
  induction 1 as [|r l Hr _ IH]; simpl; [reflexivity|].
  unfold is_type at 1. rewrite Hr. destruct k, k'; simpl; congruence.
Qed.

Lemma Forall_firstn_inv {A : Type} (P : A -> Prop) (n : nat) (l : list A) :
  Forall P l -> Forall P (firstn n l).
Proof.
  rewrite !Forall_forall. intros H x Hx. eapply H, In_firstn_inv, Hx.
Qed.

Section SplitFacts.

Variable fuzzySearch : list FuzzyItem -> str -> list FuzzyItem.

Lemma searchChats_types (query : str) (f : SearchFilters)
    (limit offset : nat) (st : Store) :
  Forall (fun r => SearchResult.type r = chat)
    (result (searchChats fuzzySearch query f limit offset st)).
Proof.
  apply Forall_forall. intros r H.
  apply In_searchChats in H as (c & _ & _ & ->). reflexivity.
Qed.

Lemma searchMessages_types (query : str) (f : SearchFilters)
    (limit offset : nat) (st : Store) :
  Forall (fun r => SearchResult.type r = message)
    (result (searchMessages query f limit offset st)).
Proof.
  apply Forall_forall. intros r H.
  apply In_searchMessages in H as (m & c & _ & _ & _ & ->). reflexivity.
Qed.



End SplitFacts.




(* ================================================================= *)
(** ** Blank queries *)

(** C7: for a query that is empty or made of white space only, chat
    search, message search and the combined search return the empty list
    and send no query to the store, so the outcome is the same for every
    store; the handler reports no results and [hasMore] false for every
    limit its schema admits (at least 1). *)
Theorem blank_query_returns_nothing_without_store_access :
  forall fuzzySearch query f limit offset st,
    forallb is_space query = true ->
    1 <= limit ->
    searchChats fuzzySearch query f limit offset st = ([], [])
    /\ searchMessages query f limit offset st = ([], [])
    /\ searchAll fuzzySearch query f limit st = ([], [])
    /\ forall type,
         search_handler fuzzySearch query type f limit offset st
         = ({| results := []; total := 0; hasMore := false |}, []).
Proof.
  intros fuzzySearch query f limit offset st Hq Hl.
  assert (E : toLowerCase (trim query) = [])
    by (rewrite trim_spaces by exact Hq; reflexivity).
  assert (Ec : forall n o, searchChats fuzzySearch query f n o st = ([], []))
    by (intros n o; rewrite searchChats_run, E; reflexivity).
  assert (Em : forall n o, searchMessages query f n o st = ([], []))
    by (intros n o; rewrite searchMessages_run, E; reflexivity).
  assert (Ea : searchAll fuzzySearch query f limit st = ([], [])).
  { rewrite searchAll_run, Ec, Em. unfold result, accesses. cbn [fst snd app].
    now rewrite firstn_nil. }
  assert (Eh : (0 =? limit) = false) by (apply Nat.eqb_neq; lia).
  repeat split; auto.
  intros type. unfold search_handler, bind, ret. cbv beta zeta.
  destruct type; rewrite ?Ea, ?Ec, ?Em; cbn [fst snd app length];
    rewrite Eh; reflexivity.
Qed.

Lemma blank_query_returns_nothing_without_store_access_witness :
  forallb is_space (lit "   ") = true
  /\ 1 <= 20
  /\ searchChats fuzzy_all (lit "   ") owner_filters 20 0 band_store
     = ([], [])
  /\ searchMessages (lit "   ") owner_filters 20 0 band_store = ([], [])
  /\ searchAll fuzzy_all (lit "   ") owner_filters 20 band_store = ([], []).
Proof.
  assert (H1 : forallb is_space (lit "   ") = true) by reflexivity.
  assert (H2 : 1 <= 20) by lia.
  destruct (blank_query_returns_nothing_without_store_access fuzzy_all
              (lit "   ") owner_filters 20 0 band_store H1 H2)
    as (Ec & Em & Ea & _).
  exact (conj H1 (conj H2 (conj Ec (conj Em Ea)))).
Defined.

(* ================================================================= *)
(** ** Pagination of chat search *)


Lemma slice_from {A : Type} (offset limit : nat) (l : list A) :
  slice offset (offset + limit) l = firstn limit (skipn offset l).
Proof. unfold slice. f_equal. lia. Qed.

Lemma length_page {A : Type} (limit offset : nat) (l : list A) :
  length (page (Some limit) (Some offset) l)
  = Nat.min limit (length l - offset).
Proof. unfold page. now rewrite length_firstn, length_skipn. Qed.



(* ================================================================= *)
(** ** Message bands *)

(** C2 as stated fails: a message whose content equals the query is
    scored 90 by the message query, not 110. *)
Lemma searchMessages_equal_content_scores_90 :
  ~ message_bands_as_specified (lit "alpha") owner_filters 10 0 band_store.
Proof.
  intros H.
  specialize
    (H (message_select (lit "alpha")
          (mkMessage "m1" "alpha" "c1" 4, mkChat "c1" "Alpha Notes" 40))).
  assert (Hin : In (message_select (lit "alpha")
                      (mkMessage "m1" "alpha" "c1" 4,
                       mkChat "c1" "Alpha Notes" 40))
                  (run_select_messages band_store
                     (toLowerCase (trim (lit "alpha"))) owner_filters
                     (Some 10) (Some 0)))
    by (vm_compute; left; reflexivity).
  specialize (H Hin). vm_compute in H. discriminate H.
Qed.

(** C2, as the code has it: a message found for search terms free of
    pattern characters holds the terms in its lower-cased content, and
    its score is 90 when the content starts with the terms (content
    equal to the terms included), 70 when it only ends with them, and 50
    otherwise. *)
Theorem searchMessages_bands :
  forall query f limit offset st r,
    let searchTerms := toLowerCase (trim query) in
    plain searchTerms = true ->
    In r (result (searchMessages query f limit offset st)) ->
    exists m,
      In m (messagesTable st)
      /\ SearchResult.id r = messages.id m
      /\ includes (toLowerCase (messages.content m)) searchTerms = true
      /\ SearchResult.score r
         = message_band searchTerms (toLowerCase (messages.content m)).
Proof.
  intros query f limit offset st r searchTerms Hp H.
  apply In_searchMessages in H as (m & c & Hm & _ & Hw & ->).
  fold searchTerms in Hw |- *.
  apply message_where_contains in Hw; [|apply trim_lower_idem].
  exists m. split; [exact Hm|]. split; [reflexivity|].
  split.
  - now rewrite <- like_contains_pat.
  - cbn [message_to_result message_select SearchResult.score
           messageHit.score].
    unfold message_score, message_band. rewrite Hw.
    now rewrite like_prefix_pat, like_suffix_pat.
Qed.

Lemma searchMessages_bands_witness :
  plain (toLowerCase (trim (lit "alpha"))) = true
  /\ In (message_to_result
           (message_select (lit "alpha")
              (mkMessage "m3" "at the end alpha" "c1" 2,
               mkChat "c1" "Alpha Notes" 40)))
        (result (searchMessages (lit "alpha") owner_filters 10 0 band_store))
  /\ exists m,
       In m (messagesTable band_store)
       /\ lit "m3" = messages.id m
       /\ includes (toLowerCase (messages.content m)) (lit "alpha") = true
       /\ 70%Q = message_band (lit "alpha") (toLowerCase (messages.content m)).
Proof.
  assert (H1 : plain (toLowerCase (trim (lit "alpha"))) = true)
    by reflexivity.
  assert (H2 : In (message_to_result
                     (message_select (lit "alpha")
                        (mkMessage "m3" "at the end alpha" "c1" 2,
                         mkChat "c1" "Alpha Notes" 40)))
                 (result (searchMessages (lit "alpha") owner_filters 10 0
                            band_store)))
    by (vm_compute; do 2 right; left; reflexivity).
  exact (conj H1 (conj H2
           (searchMessages_bands (lit "alpha") owner_filters 10 0 band_store
              _ H1 H2))).
Defined.

(* ================================================================= *)
(** ** Snippets *)

Lemma truncatedContent_long (c : str) :
  200 < length c ->
  truncatedContent c = firstn 200 c ++ lit "..."
  /\ length (truncatedContent c) = 203.
Proof.
  intros H. unfold truncatedContent, substring0.
  apply Nat.ltb_lt in H as Hb. rewrite Hb. split; [reflexivity|].
  rewrite length_app, length_firstn.
  change (length (lit "...")) with 3. lia.
Qed.

Lemma truncatedContent_short (c : str) :
  length c <= 200 -> truncatedContent c = c.
Proof.
  intros H. unfold truncatedContent.
  apply Nat.ltb_ge in H. now rewrite H.
Qed.

(** C9: the content of a message result is the message content when
    that has at most 200 characters; otherwise it is the first 200
    characters followed by three dots, 203 characters in all. *)
Theorem searchMessages_snippet :
  forall query f limit offset st r,
    In r (result (searchMessages query f limit offset st)) ->
    exists m,
      In m (messagesTable st)
      /\ SearchResult.id r = messages.id m
      /\ (200 < length (messages.content m) ->
          SearchResult.content r
          = firstn 200 (messages.content m) ++ lit "..."
          /\ length (SearchResult.content r) = 203)
      /\ (length (messages.content m) <= 200 ->
          SearchResult.content r = messages.content m).
Proof.
  intros query f limit offset st r H.
  apply In_searchMessages in H as (m & c & Hm & _ & _ & ->).
  exists m. split; [exact Hm|]. split; [reflexivity|].
  split; intros Hl.
  - now apply truncatedContent_long.
  - now apply truncatedContent_short.
Qed.

Lemma searchMessages_snippet_witness :
  In (message_to_result
        (message_select (lit "a")
           (messages.mk (lit "m1") (repeat "a"%char 250) assistant
              (lit "c1") 2,
            mkChat "c1" "Test Chat" 1)))
     (result (searchMessages (lit "a") owner_filters 10 0 long_store))
  /\ length
       (SearchResult.content
          (message_to_result
             (message_select (lit "a")
                (messages.mk (lit "m1") (repeat "a"%char 250) assistant
                   (lit "c1") 2,
                 mkChat "c1" "Test Chat" 1))))
     = 203.
Proof.
  assert (H : In (message_to_result
                    (message_select (lit "a")
                       (messages.mk (lit "m1") (repeat "a"%char 250)
                          assistant (lit "c1") 2,
                        mkChat "c1" "Test Chat" 1)))
                (result (searchMessages (lit "a") owner_filters 10 0
                           long_store)))
    by (vm_compute; left; reflexivity).
  split; [exact H|].
  destruct (searchMessages_snippet (lit "a") owner_filters 10 0 long_store
              _ H) as (m & Hm & Hid & Hlong & _).
  destruct Hm as [<- | [<- | []]].
  - apply Hlong. vm_compute. lia.
  - vm_compute in Hid. discriminate Hid.
Defined.

(* ================================================================= *)
(** ** Suggestions *)

Lemma existsb_eqb_In (x : str) (l : list str) :
  existsb (Str.eqb x) l = true <-> In x l.
Proof.
  rewrite existsb_exists. split.
  - intros (y & Hy & E). apply eqb_eq in E. now subst y.
  - intros H. exists x. split; [exact H | apply eqb_refl].
Qed.

Lemma indexOf_from_fresh (i : nat) (pre rest : list str) (x : str) :
  existsb (Str.eqb x) pre = false ->
  indexOf_from i (pre ++ x :: rest) x = Z.of_nat (i + length pre).
Proof.
  revert i. induction pre as [|y pre IH]; intros i H; simpl.
  - rewrite eqb_refl. f_equal. lia.
  - simpl in H. apply orb_false_iff in H as [Hy Hp].
    assert (E : Str.eqb y x = false).
    { apply eqb_neq. intros ->. apply eqb_neq in Hy. congruence. }
    rewrite E, IH by exact Hp. f_equal. lia.
Qed.

Lemma indexOf_from_seen (i : nat) (pre rest : list str) (x : str) :
  existsb (Str.eqb x) pre = true ->
  (indexOf_from i (pre ++ rest) x < Z.of_nat (i + length pre))%Z.
Proof.
  revert i. induction pre as [|y pre IH]; intros i H; simpl in *;
    [discriminate|].
  destruct (Str.eqb y x) eqn:E; [lia|].
  apply orb_true_iff in H as [H | H].
  - apply eqb_eq in H. subst y. rewrite eqb_refl in E. discriminate.
  - specialize (IH (S i) H). lia.
Qed.

(** Keeping the elements that sit at their own [indexOf] keeps the first
    occurrence of every string. *)
Lemma filter_index_first_seen (arr rest pre : list str) :
  arr = pre ++ rest ->
  filter_index_from
    (fun title index => (indexOf arr title =? Z.of_nat index)%Z)
    (length pre) rest
  = first_seen pre rest.
Proof.
  revert pre. induction rest as [|x rest IH]; intros pre E; [reflexivity|].
  assert (E' : arr = (pre ++ [x]) ++ rest) by (now rewrite <- app_assoc).
  specialize (IH (pre ++ [x]) E').
  rewrite length_app in IH. simpl in IH.
  replace (length pre + 1) with (S (length pre)) in IH by lia.
  simpl. destruct (existsb (Str.eqb x) pre) eqn:Hx.
  - pose proof (indexOf_from_seen 0 pre (x :: rest) x Hx) as Hlt.
    unfold indexOf. rewrite E at 1.
    destruct (Z.eqb_spec (indexOf_from 0 (pre ++ x :: rest) x)
                (Z.of_nat (length pre))) as [C | _]; [simpl in Hlt; lia|].
    exact IH.
  - unfold indexOf. rewrite E at 1.
    rewrite (indexOf_from_fresh 0 pre rest x Hx). simpl.
    rewrite Z.eqb_refl. f_equal. exact IH.
Qed.

Lemma remove_duplicates_first_seen (arr : list str) :
  remove_duplicates arr = first_seen [] arr.
Proof.
  unfold remove_duplicates, filter_index.
  now apply (filter_index_first_seen arr arr []).
Qed.

Lemma In_first_seen (seen arr : list str) (t : str) :
  In t (first_seen seen arr) -> In t arr /\ ~ In t seen.
Proof.
  revert seen. induction arr as [|x arr IH]; intros seen; simpl; [tauto|].
  destruct (existsb (Str.eqb x) seen) eqn:Hx.
  - intros H. apply IH in H as [H1 H2]. split; [now right|].
    intros C. apply H2. apply in_or_app. now left.
  - intros [-> | H].
    + split; [now left|]. intros C.
      apply existsb_eqb_In in C. congruence.
    + apply IH in H as [H1 H2]. split; [now right|].
      intros C. apply H2. apply in_or_app. now left.
Qed.

Lemma NoDup_first_seen (seen arr : list str) : NoDup (first_seen seen arr).
Proof.
  revert seen. induction arr as [|x arr IH]; intros seen; simpl;
    [constructor|].
  destruct (existsb (Str.eqb x) seen); [apply IH|].
  constructor; [|apply IH].
  intros C. apply In_first_seen in C as [_ C].
  apply C. apply in_or_app. right. now left.
Qed.

Lemma In_filter_Boolean (arr : list (option str)) (t : str) :
  In t (filter_Boolean arr) <-> In (Some t) arr /\ t <> [].
Proof.
  induction arr as [|o arr IH]; simpl; [tauto|].
  destruct o as [[|c s]|]; simpl; rewrite IH.
  - split; [tauto|]. intros [[C | C] H]; [congruence | tauto].
  - split.
    + intros [<- | [H1 H2]]; [split; [now left | discriminate] | tauto].
    + intros [[C | C] H]; [left; congruence | tauto].
  - split; [tauto|]. intros [[C | C] H]; [discriminate | tauto].
Qed.

(** C10: the suggestions hold no string twice and no empty title; they
    are titles of the store query, and they are its non-empty titles
    deduplicated in first-seen order. *)
Theorem getSearchSuggestions_unique_in_order :
  forall owner query limit st,
    let titles := run_select_titles st owner query (Some limit) None in
    let out := result (getSearchSuggestions owner query limit st) in
    NoDup out
    /\ ~ In [] out
    /\ Forall (fun t => In (Some t) titles) out
    /\ out = if length query <? 2 then []
             else first_seen [] (filter_Boolean titles).
Proof.
  intros owner query limit st titles out.
  assert (E : out = if length query <? 2 then []
                    else first_seen [] (filter_Boolean titles)).
  { unfold out, getSearchSuggestions.
    destruct (length query <? 2); [reflexivity|].
    unfold bind, db_select_titles, ret, result. cbv beta zeta. cbn [fst].
    apply remove_duplicates_first_seen. }
  rewrite E. destruct (length query <? 2).
  - repeat split; constructor || (intros []).
  - split; [apply NoDup_first_seen|]. split; [|split; [|reflexivity]].
    + intros C. apply In_first_seen in C as [C _].
      apply In_filter_Boolean in C as [_ C]. congruence.
    + apply Forall_forall. intros t H.
      apply In_first_seen in H as [H _].
      now apply In_filter_Boolean in H as [H _].
Qed.

(** The titles of [title_store] under a pattern that matches every
    title: the repeat and the empty title are dropped, the order of the
    store query is kept. *)
Example getSearchSuggestions_example :
  result (getSearchSuggestions owner (lit "%%") 10 title_store)
  = [ lit "Test Chat 1"; lit "Test Chat 2"; lit "Another Test" ].
Proof. vm_compute. reflexivity. Qed.

(** Queries shorter than two characters reach no store. *)
Example getSearchSuggestions_short :
  getSearchSuggestions owner (lit "a") 5 title_store = ([], []).
Proof. reflexivity. Qed.

(** The message bands on [band_store]. *)
Example searchMessages_example :
  map (fun r => (SearchResult.id r, SearchResult.score r))
    (result (searchMessages (lit " Alpha ") owner_filters 10 0 band_store))
  = [ (lit "m1", 90); (lit "m2", 90); (lit "m3", 70); (lit "m4", 50) ]%Q.
Proof. vm_compute. reflexivity. Qed.

(** With pattern characters in the search terms the bands follow the
    LIKE patterns, not the string tests: [a_c] is a prefix pattern of
    [abc xyz]. *)
Example searchMessages_pattern_characters :
  message_score (lit "a_c") (lit "abc xyz") = 90%Q
  /\ startsWith (lit "abc xyz") (lit "a_c") = false.
Proof. split; reflexivity. Qed.

(** [semanticSearch] at offset 0 is the combined search of the handler. *)
Lemma semanticSearch_offset_0
    (fuzzySearch : list FuzzyItem -> str -> list FuzzyItem)
    (query : str) (f : SearchFilters) (limit : nat) (st : Store) :
  semanticSearch fuzzySearch query f limit 0 st
  = searchAll fuzzySearch query f limit st.
Proof. reflexivity. Qed.

(** The schema of the handler turns the empty query away and lets a
    query of blanks through. *)
Example searchQuerySchema_blank :
  searchQuerySchema (lit "") 20 = false
  /\ searchQuerySchema (lit "   ") 20 = true.
Proof. split; reflexivity. Qed.

(* ================================================================= *)
(** ** Further properties of the search service *)

Lemma whereProject_spec (f : SearchFilters) (p : option str) :
  whereProject f p = true ->
  forall v, projectId f = Some v -> v <> [] -> p = Some v.
Proof.
  unfold whereProject. intros H v E Hv. rewrite E in H.
  destruct v as [|a v]; [congruence|]. simpl in H.
  destruct p as [s|]; [|discriminate]. simpl in H.
  apply eqb_eq in H. now subst s.
Qed.

Lemma whereDates_spec (f : SearchFilters) (created : Date) :
  whereDates f created = true ->
  (forall d, dateFrom f = Some d -> (d <= created)%Z)
  /\ (forall d, dateTo f = Some d -> (created <= d)%Z).
Proof.
  unfold whereDates. intros H. apply andb_true_iff in H as [H1 H2].
  split; intros d E; rewrite E in *; now apply Z.leb_le.
Qed.

Lemma chat_where_within (t : str) (f : SearchFilters) (c : chatThreads.row) :
  chat_where t f c = true ->
  within_filters f (chatThreads.userId c) (chatThreads.projectId c)
    (chatThreads.createdAt c)
  /\ exists s, chatThreads.title c = Some s
               /\ like (contains_pat (toLowerCase t)) (toLowerCase s) = true.
Proof.
  unfold chat_where. intros H.
  apply andb_true_iff in H as [H Ht]. apply andb_true_iff in H as [H Hd].
  apply andb_true_iff in H as [Hu Hp].
  apply eqb_eq in Hu. apply whereDates_spec in Hd as [Hd1 Hd2].
  split.
  - repeat split; auto. now apply whereProject_spec.
  - destruct (chatThreads.title c) as [s|]; [|discriminate].
    exists s. split; [reflexivity|].
    unfold ilike_null, ilike in Ht. now rewrite LOWER_contains_pat in Ht.
Qed.

Lemma message_where_within (t : str) (f : SearchFilters)
    (m : messages.row) (c : chatThreads.row) :
  message_where t f (m, c) = true ->
  within_filters f (chatThreads.userId c) (chatThreads.projectId c)
    (messages.createdAt m)
  /\ messages.role m <> system.
Proof.
  unfold message_where. intros H.
  apply andb_true_iff in H as [H Hr]. apply andb_true_iff in H as [H _].
  apply andb_true_iff in H as [H Hd]. apply andb_true_iff in H as [Hu Hp].
  apply eqb_eq in Hu. apply whereDates_spec in Hd as [Hd1 Hd2].
  split.
  - repeat split; auto. now apply whereProject_spec.
  - intros E. rewrite E in Hr. discriminate.
Qed.

Lemma length_searchChats_le
    (fuzzySearch : list FuzzyItem -> str -> list FuzzyItem)
    (query : str) (f : SearchFilters) (n o : nat) (st : Store) :
  length (result (searchChats fuzzySearch query f n o st)) <= n.
Proof.
  rewrite searchChats_run.
  destruct (toLowerCase (trim query)); [simpl; lia|].
  unfold result, fst, run_select_chats, page.
  rewrite length_map. apply firstn_le_length.
Qed.

Lemma length_searchMessages_le (query : str) (f : SearchFilters)
    (n o : nat) (st : Store) :
  length (result (searchMessages query f n o st)) <= n.
Proof.
  rewrite searchMessages_run.
  destruct (toLowerCase (trim query)); [simpl; lia|].
  unfold result, fst, run_select_messages, page.
  rewrite length_map. apply firstn_le_length.
Qed.

Lemma ceil_half_double (limit : nat) : 2 * ceil_half limit <= limit + 1.
Proof.
  unfold ceil_half. rewrite Nat.div2_div.
  pose proof (Nat.div_mod_eq (S limit) 2) as H. lia.
Qed.

(** X1: no search returns more results than the limit it is given, and
    the combined search holds at most [ceil(limit/2)] results of either
    kind. *)
Theorem search_result_counts_bounded :
  forall fuzzySearch query f limit offset st,
    length (result (searchChats fuzzySearch query f limit offset st)) <= limit
    /\ length (result (searchMessages query f limit offset st)) <= limit
    /\ length (result (searchAll fuzzySearch query f limit st)) <= limit
    /\ count_type chat (result (searchAll fuzzySearch query f limit st))
       <= ceil_half limit
    /\ count_type message (result (searchAll fuzzySearch query f limit st))
       <= ceil_half limit.
Proof.
  intros fuzzySearch query f limit offset st.
  assert (Lc := length_searchChats_le fuzzySearch query f).
  assert (Lm := length_searchMessages_le query f).
  split; [apply Lc|]. split; [apply Lm|].
  specialize (Lc (ceil_half limit) 0 st).
  specialize (Lm (ceil_half limit) 0 st).
  set (cs := result (searchChats fuzzySearch query f (ceil_half limit) 0 st)).
  set (ms := result (searchMessages query f (ceil_half limit) 0 st)).
  assert (E : result (searchAll fuzzySearch query f limit st)
              = firstn limit (cs ++ ms))
    by (rewrite searchAll_run; reflexivity).
  rewrite E. clear E.
  assert (Tc : Forall (fun r => SearchResult.type r = chat) cs)
    by apply searchChats_types.
  assert (Tm : Forall (fun r => SearchResult.type r = message) ms)
    by apply searchMessages_types.
  split; [apply firstn_le_length|].
  rewrite firstn_app, !count_type_app.
  rewrite (count_type_all chat (firstn limit cs)) by
    (now apply Forall_firstn_inv).
  rewrite (count_type_none chat message) by
    (try discriminate; now apply Forall_firstn_inv).
  rewrite (count_type_none message chat (firstn limit cs)) by
    (try discriminate; now apply Forall_firstn_inv).
  rewrite (count_type_all message) by (now apply Forall_firstn_inv).
  rewrite !length_firstn.
  fold cs in Lc. fold ms in Lm. lia.
Qed.

(** X2: every chat result is a chat of the store that belongs to the
    user of the filters, lies in the filtered project and date range,
    and has a title; the result carries the id and dates of that
    chat. *)
Theorem searchChats_results_within_filters :
  forall fuzzySearch query f limit offset st,
    Forall
      (fun r =>
         exists c,
           In c (chatThreadsTable st)
           /\ SearchResult.id r = chatThreads.id c
           /\ SearchResult.createdAt r = chatThreads.createdAt c
           /\ SearchResult.updatedAt r = Some (chatThreads.updatedAt c)
           /\ chatThreads.title c <> None
           /\ within_filters f (chatThreads.userId c)
                (chatThreads.projectId c) (chatThreads.createdAt c))
      (result (searchChats fuzzySearch query f limit offset st)).
Proof.
  intros fuzzySearch query f limit offset st.
  apply Forall_forall. intros r H.
  apply In_searchChats in H as (c & Hc & Hw & ->).
  apply chat_where_within in Hw as [Hf (s & Hs & _)].
  exists c. repeat split; try assumption; try apply Hf. congruence.
Qed.

(** X3: every message result is a user or assistant message of the
    store whose parent chat belongs to the user of the filters and lies
    in the filtered project, and whose own creation date lies in the
    date range; the result names that chat in its metadata. *)
Theorem searchMessages_results_within_filters :
  forall query f limit offset st,
    Forall
      (fun r =>
         exists m c,
           In m (messagesTable st) /\ In c (chatThreadsTable st)
           /\ SearchResult.id r = messages.id m
           /\ messages.chatId m = chatThreads.id c
           /\ meta_chatId (SearchResult.metadata r)
              = Some (chatThreads.id c)
           /\ meta_messageRole (SearchResult.metadata r)
              = Some (messages.role m)
           /\ messages.role m <> system
           /\ within_filters f (chatThreads.userId c)
                (chatThreads.projectId c) (messages.createdAt m))
      (result (searchMessages query f limit offset st)).
Proof.
  intros query f limit offset st.
  apply Forall_forall. intros r H.
  rewrite searchMessages_run in H.
  destruct (toLowerCase (trim query)) as [|a t] eqn:E; [destruct H|].
  unfold result, fst in H. apply in_map_iff in H as (h & <- & H).
  unfold run_select_messages in H.
  apply In_page, In_stable_sort, in_map_iff in H as ([m c] & <- & H).
  apply In_arrange, filter_In in H as [Hin Hw].
  assert (Hj : messages.chatId m = chatThreads.id c).
  { unfold messages_join in Hin.
    apply in_flat_map in Hin as (m' & _ & Hin).
    apply in_map_iff in Hin as (c' & E' & Hin).
    injection E' as -> ->. apply filter_In in Hin as [_ Hin].
    now apply eqb_eq in Hin. }
  apply In_messages_join in Hin as [Hm Hc].
  apply message_where_within in Hw as [Hf Hr].
  exists m, c. repeat split; try assumption; try apply Hf.
Qed.

Lemma whereProject_complete (f : SearchFilters) (p : option str) :
  (forall v, projectId f = Some v -> v <> [] -> p = Some v) ->
  whereProject f p = true.
Proof.
  unfold whereProject. intros H.
  destruct (projectId f) as [[|a v]|]; try reflexivity.
  rewrite (H (a :: v) eq_refl) by discriminate. simpl.
  rewrite Ascii.eqb_refl. apply eqb_refl.
Qed.

Lemma whereDates_complete (f : SearchFilters) (created : Date) :
  (forall d, dateFrom f = Some d -> (d <= created)%Z) ->
  (forall d, dateTo f = Some d -> (created <= d)%Z) ->
  whereDates f created = true.
Proof.
  unfold whereDates. intros H1 H2. apply andb_true_iff. split.
  - destruct (dateFrom f); [apply Z.leb_le; auto | reflexivity].
  - destruct (dateTo f); [apply Z.leb_le; auto | reflexivity].
Qed.

(** For search terms in normal form and free of pattern characters the
    WHERE clause of the chat query is: within the filters, and the
    lower-cased title holds the terms. *)
Lemma chat_where_plain (t : str) (f : SearchFilters) (c : chatThreads.row) :
  toLowerCase t = t -> plain t = true ->
  (chat_where t f c = true <->
   within_filters f (chatThreads.userId c) (chatThreads.projectId c)
     (chatThreads.createdAt c)
   /\ exists s, chatThreads.title c = Some s
                /\ includes (toLowerCase s) t = true).
Proof.
  intros Ht Hp. split.
  - intros H. apply chat_where_within in H as [Hf (s & Hs & Hl)].
    split; [exact Hf|]. exists s. split; [exact Hs|].
    rewrite Ht in Hl. now rewrite <- like_contains_pat.
  - intros [(Hu & Hpr & Hd1 & Hd2) (s & Hs & Hi)].
    unfold chat_where. rewrite Hu, eqb_refl.
    rewrite whereProject_complete by exact Hpr.
    rewrite whereDates_complete by assumption.
    rewrite Hs. unfold ilike_null, ilike.
    rewrite LOWER_contains_pat, Ht. unfold LOWER.
    now rewrite like_contains_pat.
Qed.

Lemma page_all {A : Type} (limit : nat) (l : list A) :
  length l <= limit -> page (Some limit) (Some 0) l = l.
Proof. intros H. unfold page. simpl skipn. now apply firstn_all2. Qed.

(** X4: for search terms free of pattern characters and a limit that
    covers the table, chat search at offset 0 finds exactly the chats
    that lie within the filters and whose lower-cased title holds the
    terms. *)
Theorem searchChats_finds_exactly_the_matching_chats :
  forall fuzzySearch query f limit st r,
    normalize query <> [] ->
    plain (normalize query) = true ->
    length (chatThreadsTable st) <= limit ->
    (In r (result (searchChats fuzzySearch query f limit 0 st)) <->
     exists c s,
       In c (chatThreadsTable st)
       /\ r = chat_to_result (chat_select (normalize query) c)
       /\ chatThreads.title c = Some s
       /\ includes (toLowerCase s) (normalize query) = true
       /\ within_filters f (chatThreads.userId c)
            (chatThreads.projectId c) (chatThreads.createdAt c)).
Proof.
  intros fuzzySearch query f limit st r Hq Hp Hl.
  assert (Ht : toLowerCase (normalize query) = normalize query)
    by apply trim_lower_idem.
  split.
  - intros H. apply In_searchChats in H as (c & Hc & Hw & ->).
    fold (normalize query) in Hw.
    apply chat_where_plain in Hw as [Hf (s & Hs & Hi)]; try assumption.
    exists c, s. auto.
  - intros (c & s & Hc & -> & Hs & Hi & Hf).
    rewrite searchChats_run. fold (normalize query).
    destruct (normalize query) as [|a t] eqn:E; [congruence|].
    unfold result, fst. apply in_map.
    unfold run_select_chats. rewrite page_all.
    + apply In_stable_sort, in_map, In_arrange, filter_In.
      split; [exact Hc|]. apply chat_where_plain; eauto.
    + rewrite (Permutation_length (stable_sort_perm _ _ _)), length_map.
      rewrite length_arrange.
      etransitivity; [apply filter_length_le | exact Hl].
Qed.

Lemma searchChats_finds_exactly_the_matching_chats_witness :
  normalize (lit " Alpha ") <> []
  /\ plain (normalize (lit " Alpha ")) = true
  /\ length (chatThreadsTable band_store) <= 10
  /\ In (chat_to_result
           (chat_select (normalize (lit " Alpha "))
              (mkChat "c3" "My Alpha Plan" 20)))
        (result (searchChats fuzzy_all (lit " Alpha ") owner_filters 10 0
                   band_store)).
Proof.
  assert (H1 : normalize (lit " Alpha ") <> [])
    by (vm_compute; discriminate).
  assert (H2 : plain (normalize (lit " Alpha ")) = true) by reflexivity.
  assert (H3 : length (chatThreadsTable band_store) <= 10)
    by (vm_compute; lia).
  refine (conj H1 (conj H2 (conj H3 _))).
  apply (searchChats_finds_exactly_the_matching_chats fuzzy_all
           (lit " Alpha ") owner_filters 10 band_store _ H1 H2 H3).
  exists (mkChat "c3" "My Alpha Plan" 20), (lit "My Alpha Plan").
  split; [vm_compute; do 2 right; left; reflexivity|].
  split; [reflexivity|]. split; [reflexivity|]. split; [reflexivity|].
  repeat split; intros v E; discriminate E.
Defined.

(* ----------------------------------------------------------------- *)
(** *** Pages *)

Lemma firstn_add_split {A : Type} (n m : nat) (l : list A) :
  firstn (n + m) l = firstn n l ++ firstn m (skipn n l).
Proof.
  revert l. induction n as [|n IH]; intros l; [reflexivity|].
  destruct l as [|x l]; simpl; [now rewrite firstn_nil | now rewrite IH].
Qed.

Lemma page_concat {A : Type} (n m o : nat) (l : list A) :
  page (Some n) (Some o) l ++ page (Some m) (Some (o + n)) l
  = page (Some (n + m)) (Some o) l.
Proof.
  unfold page. rewrite firstn_add_split, skipn_skipn.
  now rewrite (Nat.add_comm n o).
Qed.

(** Two sorted arrangements of the same rows are the same list when no
    two different rows tie. *)
Lemma sorted_perm_unique {A : Type} (le : A -> A -> bool) (l1 l2 : list A) :
  (forall a b, In a l1 -> In b l1 ->
               le a b = true -> le b a = true -> a = b) ->
  StronglySorted (fun a b => le a b = true) l1 ->
  StronglySorted (fun a b => le a b = true) l2 ->
  Permutation l1 l2 -> l1 = l2.
Proof.
  revert l2. induction l1 as [|x l1 IH]; intros l2 Ha S1 S2 P.
  - symmetry. now apply Permutation_nil.
  - destruct l2 as [|y l2].
    { symmetry in P. now apply Permutation_nil in P. }
    inversion S1 as [|x' l1' S1' F1]; subst.
    inversion S2 as [|y' l2' S2' F2]; subst.
    rewrite Forall_forall in F1, F2.
    assert (Hy : In y (x :: l1))
      by (eapply Permutation_in; [symmetry; exact P | now left]).
    assert (Hx : In x (y :: l2))
      by (eapply Permutation_in; [exact P | now left]).
    assert (E : x = y).
    { destruct Hy as [Hy | Hy]; [exact Hy|].
      destruct Hx as [Hx | Hx]; [now symmetry|].
      apply Ha; [now left | now right | now apply F1 | now apply F2]. }
    subst y. f_equal. apply IH; try assumption.
    + intros a b Hin1 Hin2. apply Ha; now right.
    + now apply Permutation_cons_inv in P.
Qed.

Lemma NoDup_map_inj_in {A B : Type} (g : A -> B) (l : list A) (a b : A) :
  NoDup (map g l) -> In a l -> In b l -> g a = g b -> a = b.
Proof.
  induction l as [|x l IH]; simpl; [tauto|].
  intros H Ha Hb E. inversion H as [|y l' Hn Hd]; subst.
  destruct Ha as [-> | Ha], Hb as [-> | Hb]; auto.
  - exfalso. apply Hn. rewrite E. now apply in_map.
  - exfalso. apply Hn. rewrite <- E. now apply in_map.
Qed.

Lemma bands_Qeq (x y : Q) :
  In x bands -> In y bands -> (x == y)%Q -> x = y.
Proof.
  unfold bands. intros Hx Hy E.
  repeat (destruct Hx as [<- | Hx]; [|]); try (destruct Hx);
    repeat (destruct Hy as [<- | Hy]; [|]); try (destruct Hy);
    try reflexivity; vm_compute in E; discriminate E.
Qed.

Lemma chat_score_band (t : str) (ti : option str) : In (chat_score t ti) bands.
Proof.
  unfold chat_score, bands.
  repeat match goal with |- context [if ?b then _ else _] => destruct b end;
    simpl; tauto.
Qed.

Lemma message_score_band (t c : str) : In (message_score t c) bands.
Proof.
  unfold message_score, bands.
  repeat match goal with |- context [if ?b then _ else _] => destruct b end;
    simpl; tauto.
Qed.

(** Rows that stand in front of each other under ORDER BY have the same
    keys. *)
Lemma order_desc2_antisym {A : Type} (k1 : A -> Q) (k2 : A -> Z) (a b : A) :
  In (k1 a) bands -> In (k1 b) bands ->
  order_desc2 k1 k2 a b = true -> order_desc2 k1 k2 b a = true ->
  (k1 a, k2 a) = (k1 b, k2 b).
Proof.
  intros Ba Bb. rewrite !order_desc2_spec.
  intros [H1 | [E1 H1]] [H2 | [E2 H2]]; try lra.
  f_equal; [now apply bands_Qeq | lia].
Qed.

(** In a store without ties the sorted rows of a query do not depend on
    the order in which the store reaches them. *)
Lemma sorted_hits_unique {A B : Type} (k1 : B -> Q) (k2 : B -> Z)
    (sel : A -> B) (rows1 rows2 : list A) :
  (forall r, In (k1 (sel r)) bands) ->
  NoDup (map (fun r => (k1 (sel r), k2 (sel r))) rows1) ->
  Permutation rows1 rows2 ->
  stable_sort (order_desc2 k1 k2) (map sel rows1)
  = stable_sort (order_desc2 k1 k2) (map sel rows2).
Proof.
  intros Hb Hn P. apply (sorted_perm_unique (order_desc2 k1 k2)).
  - intros a b Ha Hb' L1 L2.
    apply In_stable_sort, in_map_iff in Ha as (ra & <- & Ha).
    apply In_stable_sort, in_map_iff in Hb' as (rb & <- & Hb').
    f_equal.
    apply (NoDup_map_inj_in (fun r => (k1 (sel r), k2 (sel r))) rows1);
      try assumption.
    now apply order_desc2_antisym.
  - apply stable_sort_sorted;
      [intros a b; apply order_desc2_total
      | intros a b c; apply order_desc2_trans].
  - apply stable_sort_sorted;
      [intros a b; apply order_desc2_total
      | intros a b c; apply order_desc2_trans].
  - apply Permutation_trans with (map sel rows1);
      [apply stable_sort_perm|].
    apply Permutation_trans with (map sel rows2);
      [now apply Permutation_map | symmetry; apply stable_sort_perm].
Qed.

Lemma run_select_chats_untied (st : Store) (t : str) (f : SearchFilters)
    (limit offset : option nat) :
  untied_chats st t f ->
  run_select_chats st t f limit offset
  = page limit offset
      (stable_sort chat_order
         (map (chat_select t) (chat_matches st t f))).
Proof.
  intros H. unfold run_select_chats, chat_order. f_equal.
  symmetry.
  apply (sorted_hits_unique chatHit.score chatHit.updatedAt (chat_select t)).
  - intros r. apply chat_score_band.
  - exact H.
  - symmetry. apply arrange_perm.
Qed.

Lemma run_select_messages_untied (st : Store) (t : str) (f : SearchFilters)
    (limit offset : option nat) :
  untied_messages st t f ->
  run_select_messages st t f limit offset
  = page limit offset
      (stable_sort message_order
         (map (message_select t) (message_matches st t f))).
Proof.
  intros H. unfold run_select_messages, message_order. f_equal.
  symmetry.
  apply (sorted_hits_unique messageHit.score messageHit.messageCreatedAt
           (message_select t)).
  - intros [m c]. apply message_score_band.
  - unfold untied_messages in H.
    rewrite (map_ext _ (fun mc => (message_score t (messages.content (fst mc)),
                                   messages.createdAt (fst mc))))
      by (intros [m c]; reflexivity).
    exact H.
  - symmetry. apply arrange_perm.
Qed.

Lemma searchChats_pages_join
    (fuzzySearch : list FuzzyItem -> str -> list FuzzyItem)
    (query : str) (f : SearchFilters) (n m o : nat) (st : Store) :
  untied_chats st (normalize query) f ->
  result (searchChats fuzzySearch query f n o st)
  ++ result (searchChats fuzzySearch query f m (o + n) st)
  = result (searchChats fuzzySearch query f (n + m) o st).
Proof.
  intros H. rewrite !searchChats_run. fold (normalize query).
  destruct (normalize query) as [|a t]; [reflexivity|].
  unfold result, fst. rewrite !run_select_chats_untied by exact H.
  now rewrite <- map_app, page_concat.
Qed.

Lemma searchMessages_pages_join (query : str) (f : SearchFilters)
    (n m o : nat) (st : Store) :
  untied_messages st (normalize query) f ->
  result (searchMessages query f n o st)
  ++ result (searchMessages query f m (o + n) st)
  = result (searchMessages query f (n + m) o st).
Proof.
  intros H. rewrite !searchMessages_run. fold (normalize query).
  destruct (normalize query) as [|a t]; [reflexivity|].
  unfold result, fst. rewrite !run_select_messages_untied by exact H.
  now rewrite <- map_app, page_concat.
Qed.

(** X5: in a store where no two matches tie under the ORDER BY of the
    query, and for search terms whose escapes are closed, consecutive
    pages join up: the page of [n] results at offset [o] followed by the
    page of [m] results at offset [o + n] is the page of [n + m] results
    at offset [o], for chat search and for message search alike. *)
Theorem search_pages_concatenate :
  forall fuzzySearch query f n m o st,
    escapes_closed (normalize query) = true ->
    untied_chats st (normalize query) f ->
    untied_messages st (normalize query) f ->
    result (searchChats fuzzySearch query f n o st)
    ++ result (searchChats fuzzySearch query f m (o + n) st)
    = result (searchChats fuzzySearch query f (n + m) o st)
    /\ result (searchMessages query f n o st)
       ++ result (searchMessages query f m (o + n) st)
       = result (searchMessages query f (n + m) o st).
Proof.
  intros fuzzySearch query f n m o st _ Hc Hm. split.
  - now apply searchChats_pages_join.
  - now apply searchMessages_pages_join.
Qed.

Lemma search_pages_concatenate_witness :
  escapes_closed (normalize (lit "alpha")) = true
  /\ untied_chats band_store (normalize (lit "alpha")) owner_filters
  /\ untied_messages band_store (normalize (lit "alpha")) owner_filters
  /\ result (searchChats fuzzy_all (lit "alpha") owner_filters 1 1 band_store)
     ++ result (searchChats fuzzy_all (lit "alpha") owner_filters 2 2
                  band_store)
     = result (searchChats fuzzy_all (lit "alpha") owner_filters 3 1
                 band_store).
Proof.
  assert (H1 : escapes_closed (normalize (lit "alpha")) = true)
    by reflexivity.
  assert (H2 : untied_chats band_store (normalize (lit "alpha"))
                 owner_filters).
  { unfold untied_chats.
    apply (NoDup_map_inv snd). vm_compute.
    repeat (constructor;
            [intros C; repeat (destruct C as [C | C]; [discriminate C|]);
             exact C|]).
    constructor. }
  assert (H3 : untied_messages band_store (normalize (lit "alpha"))
                 owner_filters).
  { unfold untied_messages.
    apply (NoDup_map_inv snd). vm_compute.
    repeat (constructor;
            [intros C; repeat (destruct C as [C | C]; [discriminate C|]);
             exact C|]).
    constructor. }
  exact (conj H1 (conj H2 (conj H3
           (proj1 (search_pages_concatenate fuzzy_all (lit "alpha")
                     owner_filters 1 2 1 band_store H1 H2 H3))))).
Defined.

(** Where rows tie, pages need not join up: [tied_store] hands out its
    first two chats in one order for the page of two and in the other
    for the page of four. *)
Example pages_need_not_join_on_ties :
  map SearchResult.id
    (result (searchChats fuzzy_all (lit "alpha") owner_filters 2 0 tied_store)
     ++ result (searchChats fuzzy_all (lit "alpha") owner_filters 2 2
                  tied_store))
  = [ lit "t1"; lit "t0"; lit "t2"; lit "t3" ]
  /\ map SearchResult.id
       (result (searchChats fuzzy_all (lit "alpha") owner_filters 4 0
                  tied_store))
     = [ lit "t0"; lit "t1"; lit "t2"; lit "t3" ].
Proof. split; vm_compute; reflexivity. Qed.

(* ----------------------------------------------------------------- *)
(** *** Normal form of the query *)

Lemma is_space_lower_char (c : ascii) : is_space (lower_char c) = is_space c.
Proof.
  destruct c as [[] [] [] [] [] [] [] []]; vm_compute; reflexivity.
Qed.

Lemma trimStart_toLowerCase (s : str) :
  trimStart (toLowerCase s) = toLowerCase (trimStart s).
Proof.
  induction s as [|c s IH]; [reflexivity|].
  simpl. rewrite is_space_lower_char.
  destruct (is_space c); [exact IH | reflexivity].
Qed.

Lemma trim_toLowerCase (s : str) :
  trim (toLowerCase s) = toLowerCase (trim s).
Proof.
  unfold trim, trimEnd, toLowerCase.
  fold (toLowerCase s). rewrite trimStart_toLowerCase.
  unfold toLowerCase. rewrite <- map_rev.
  fold (toLowerCase (rev (trimStart s))).
  rewrite trimStart_toLowerCase. unfold toLowerCase. now rewrite map_rev.
Qed.

Lemma trimStart_clean (s : str) : clean_head (trimStart s).
Proof.
  induction s as [|c s IH]; simpl; [exact I|].
  destruct (is_space c) eqn:E; [exact IH | exact E].
Qed.

Lemma trimStart_of_clean (s : str) : clean_head s -> trimStart s = s.
Proof. destruct s as [|c s]; simpl; [reflexivity | now intros ->]. Qed.

Lemma trimStart_snoc (l : str) (c : ascii) :
  is_space c = false -> exists l2, trimStart (l ++ [c]) = l2 ++ [c].
Proof.
  intros Hc. induction l as [|x l IH]; simpl.
  - rewrite Hc. now exists [].
  - destruct (is_space x); [exact IH | now exists (x :: l)].
Qed.

Lemma trimEnd_clean (s : str) : clean_head s -> clean_head (trimEnd s).
Proof.
  unfold trimEnd. destruct s as [|c s]; simpl; [intros _; exact I|].
  intros Hc. destruct (trimStart_snoc (rev s) c Hc) as [l2 E].
  rewrite E, rev_app_distr. exact Hc.
Qed.

Lemma trim_idem (s : str) : trim (trim s) = trim s.
Proof.
  unfold trim.
  rewrite (trimStart_of_clean (trimEnd (trimStart s)))
    by apply trimEnd_clean, trimStart_clean.
  unfold trimEnd. rewrite rev_involutive.
  now rewrite (trimStart_of_clean _ (trimStart_clean (rev (trimStart s)))).
Qed.

Lemma normalize_idem (query : str) :
  normalize (normalize query) = normalize query.
Proof.
  unfold normalize.
  now rewrite trim_toLowerCase, trim_idem, toLowerCase_idem.
Qed.

(** X6: a search does not tell a query from its trimmed, lower-cased
    form: results and store queries are the same for both, in chat
    search, message search and the combined search. *)
Theorem search_ignores_case_and_outer_space :
  forall fuzzySearch query f limit offset st,
    searchChats fuzzySearch (normalize query) f limit offset st
    = searchChats fuzzySearch query f limit offset st
    /\ searchMessages (normalize query) f limit offset st
       = searchMessages query f limit offset st
    /\ searchAll fuzzySearch (normalize query) f limit st
       = searchAll fuzzySearch query f limit st.
Proof.
  intros fuzzySearch query f limit offset st.
  assert (Ec : forall n o,
             searchChats fuzzySearch (normalize query) f n o st
             = searchChats fuzzySearch query f n o st).
  { intros n o. rewrite !searchChats_run.
    fold (normalize (normalize query)). fold (normalize query).
    now rewrite normalize_idem. }
  assert (Em : forall n o,
             searchMessages (normalize query) f n o st
             = searchMessages query f n o st).
  { intros n o. rewrite !searchMessages_run.
    fold (normalize (normalize query)). fold (normalize query).
    now rewrite normalize_idem. }
  split; [apply Ec|]. split; [apply Em|].
  now rewrite !searchAll_run, Ec, Em.
Qed.

(** X7: a message result scores 90, 70 or 50; the value 30 of the outer
    ELSE branch of the message query is never returned. *)
Theorem searchMessages_scores_90_70_50 :
  forall query f limit offset st,
    Forall
      (fun r => SearchResult.score r = 90%Q \/ SearchResult.score r = 70%Q
                \/ SearchResult.score r = 50%Q)
      (result (searchMessages query f limit offset st)).
Proof.
  intros query f limit offset st. apply Forall_forall. intros r.
  apply searchMessages_score_cases.
Qed.

(* ----------------------------------------------------------------- *)
(** *** Distinct results *)

Lemma NoDup_map_filter {A B : Type} (g : A -> B) (p : A -> bool)
    (l : list A) :
  NoDup (map g l) -> NoDup (map g (filter p l)).
Proof.
  induction l as [|x l IH]; simpl; [auto|].
  intros H. inversion H as [|y l' Hn Hd]; subst.
  destruct (p x); simpl; [constructor|]; auto.
  intros C. apply Hn. apply in_map_iff in C as (z & E & C).
  apply filter_In in C as [C _]. apply in_map_iff. eauto.
Qed.

Lemma NoDup_map_page {A B : Type} (g : A -> B) (limit offset : option nat)
    (l : list A) :
  NoDup (map g l) -> NoDup (map g (page limit offset l)).
Proof.
  intros H. unfold page.
  assert (Hs : forall n l0, NoDup (map g l0) -> NoDup (map g (skipn n l0))).
  { intros n l0 H0. rewrite <- (firstn_skipn n l0), map_app in H0.
    now apply NoDup_app_remove_l in H0. }
  assert (Hf : forall n l0, NoDup (map g l0) -> NoDup (map g (firstn n l0))).
  { intros n l0 H0. rewrite <- (firstn_skipn n l0), map_app in H0.
    now apply NoDup_app_remove_r in H0. }
  destruct limit, offset; auto.
Qed.

Lemma NoDup_map_stable_sort {A B : Type} (g : A -> B) (le : A -> A -> bool)
    (l : list A) :
  NoDup (map g l) -> NoDup (map g (stable_sort le l)).
Proof.
  apply Permutation_NoDup, Permutation_map.
  symmetry. apply stable_sort_perm.
Qed.

Lemma filter_unique_key (x : str) (chatsT : list chatThreads.row) :
  NoDup (map chatThreads.id chatsT) ->
  length (filter (fun c => Str.eqb x (chatThreads.id c)) chatsT) <= 1.
Proof.
  induction chatsT as [|c l IH]; simpl; [lia|].
  intros H. inversion H as [|y l' Hn Hd]; subst.
  destruct (Str.eqb x (chatThreads.id c)) eqn:E; [|auto].
  apply eqb_eq in E. subst x. simpl.
  assert (Z0 : filter (fun c0 => Str.eqb (chatThreads.id c) (chatThreads.id c0))
                 l = []).
  { destruct (filter _ l) as [|z zs] eqn:F; [reflexivity|].
    assert (Hz : In z (filter (fun c0 => Str.eqb (chatThreads.id c)
                                           (chatThreads.id c0)) l))
      by (rewrite F; now left).
    apply filter_In in Hz as [Hz Ez]. apply eqb_eq in Ez.
    exfalso. apply Hn. rewrite Ez. now apply in_map. }
  rewrite Z0. simpl. lia.
Qed.

Lemma NoDup_messages_join (st : Store) :
  NoDup (map messages.id (messagesTable st)) ->
  NoDup (map chatThreads.id (chatThreadsTable st)) ->
  NoDup (map (fun mc => messages.id (fst mc)) (messages_join st)).
Proof.
  unfold messages_join. intros Hm Hc.
  induction (messagesTable st) as [|m ms IH]; simpl; [constructor|].
  inversion Hm as [|y l' Hn Hd]; subst.
  rewrite map_app. apply NoDup_app.
  - pose proof (filter_unique_key (messages.chatId m) _ Hc) as Hlen.
    destruct (filter _ (chatThreadsTable st)) as [|c [|c' l]]; simpl in *;
      [constructor | repeat constructor; intros [] | lia].
  - now apply IH.
  - intros a Ha Hb.
    apply in_map_iff in Ha as ([m1 c1] & <- & Ha).
    apply in_map_iff in Ha as (c2 & E & _). injection E as <- <-.
    apply in_map_iff in Hb as ([m2 c3] & E2 & Hb).
    apply in_flat_map in Hb as (m3 & Hm3 & Hb).
    apply in_map_iff in Hb as (c4 & E3 & _). injection E3 as <- <-.
    simpl in E2. apply Hn. rewrite <- E2. now apply in_map.
Qed.

(** X8: when the chats of the store have distinct ids, no chat search
    returns an id twice; when the messages have distinct ids as well, no
    message search does. *)
Theorem search_results_have_distinct_ids :
  forall fuzzySearch query f limit offset st,
    NoDup (map chatThreads.id (chatThreadsTable st)) ->
    NoDup (map SearchResult.id
             (result (searchChats fuzzySearch query f limit offset st)))
    /\ (NoDup (map messages.id (messagesTable st)) ->
        NoDup (map SearchResult.id
                 (result (searchMessages query f limit offset st)))).
Proof.
  intros fuzzySearch query f limit offset st Hc. split.
  - rewrite searchChats_run.
    destruct (toLowerCase (trim query)) as [|a t]; [constructor|].
    unfold result, fst, run_select_chats. rewrite map_map.
    apply (NoDup_map_page (fun h => chatHit.id h)).
    apply NoDup_map_stable_sort. rewrite map_map. simpl.
    apply (Permutation_NoDup
             (Permutation_map _ (Permutation_sym (arrange_perm _ _ _)))).
    now apply NoDup_map_filter.
  - intros Hm. rewrite searchMessages_run.
    destruct (toLowerCase (trim query)) as [|a t]; [constructor|].
    unfold result, fst, run_select_messages. rewrite map_map.
    apply (NoDup_map_page (fun h => messageHit.messageId h)).
    apply NoDup_map_stable_sort. rewrite map_map.
    rewrite (map_ext _ (fun mc => messages.id (fst mc)))
      by (intros [m c]; reflexivity).
    apply (Permutation_NoDup
             (Permutation_map _ (Permutation_sym (arrange_perm _ _ _)))).
    apply NoDup_map_filter. now apply NoDup_messages_join.
Qed.

Lemma search_results_have_distinct_ids_witness :
  NoDup (map chatThreads.id (chatThreadsTable six_store))
  /\ NoDup (map SearchResult.id
              (result (searchChats fuzzy_all (lit "alpha") owner_filters 4 1
                         six_store))).
Proof.
  assert (H : NoDup (map chatThreads.id (chatThreadsTable six_store))).
  { vm_compute.
    repeat (constructor;
            [intros C; repeat (destruct C as [C | C]; [discriminate C|]);
             exact C|]).
    constructor. }
  exact (conj H
           (proj1 (search_results_have_distinct_ids fuzzy_all (lit "alpha")
                     owner_filters 4 1 six_store H))).
Defined.

(* ----------------------------------------------------------------- *)
(** *** The combined searches *)

(** X9: in the combined search the sort by score moves nothing: the
    output is the chat results followed by the message results, cut
    after [limit] entries, and the store is asked the two queries of the
    sub-searches. *)
Theorem searchAll_lists_chats_before_messages :
  forall fuzzySearch query f limit st,
    result (searchAll fuzzySearch query f limit st)
    = firstn limit
        (result (searchChats fuzzySearch query f (ceil_half limit) 0 st)
         ++ result (searchMessages query f (ceil_half limit) 0 st))
    /\ accesses (searchAll fuzzySearch query f limit st)
       = accesses (searchChats fuzzySearch query f (ceil_half limit) 0 st)
         ++ accesses (searchMessages query f (ceil_half limit) 0 st).
Proof.
  intros fuzzySearch query f limit st.
  rewrite searchAll_run. split; reflexivity.
Qed.

Lemma semanticSearch_run
    (fuzzySearch : list FuzzyItem -> str -> list FuzzyItem)
    (query : str) (f : SearchFilters) (limit offset : nat) (st : Store) :
  semanticSearch fuzzySearch query f limit offset st =
  (firstn limit
     (skipn offset
        (result (searchChats fuzzySearch query f (ceil_half limit) 0 st)
         ++ result (searchMessages query f (ceil_half limit) 0 st))),
   accesses (searchChats fuzzySearch query f (ceil_half limit) 0 st)
   ++ accesses (searchMessages query f (ceil_half limit) 0 st)).
Proof.
  unfold semanticSearch, bind, ret, result, accesses.
  cbv beta zeta. cbn [fst snd].
  rewrite app_nil_r, slice_from. f_equal. f_equal. f_equal.
  apply Array_sort_ranked, chats_then_messages_ranked.
Qed.

(** X10: [semanticSearch] cuts every page out of the same
    [2 * ceil(limit/2)] results: it sends the same two queries whatever
    the offset, returns at most [2 * ceil(limit/2) - offset] results,
    and nothing at all once the offset exceeds the limit. *)
Theorem semanticSearch_pages_run_dry :
  forall fuzzySearch query f limit offset st,
    accesses (semanticSearch fuzzySearch query f limit offset st)
    = accesses (semanticSearch fuzzySearch query f limit 0 st)
    /\ length (result (semanticSearch fuzzySearch query f limit offset st))
       <= 2 * ceil_half limit - offset
    /\ (limit < offset ->
        result (semanticSearch fuzzySearch query f limit offset st) = []).
Proof.
  intros fuzzySearch query f limit offset st.
  rewrite !semanticSearch_run. unfold result at 1 4, accesses at 1 4.
  cbn [fst snd]. split; [reflexivity|].
  set (cs := result (searchChats fuzzySearch query f (ceil_half limit) 0 st)).
  set (ms := result (searchMessages query f (ceil_half limit) 0 st)).
  pose proof (length_searchChats_le fuzzySearch query f
                (ceil_half limit) 0 st) as Hc.
  pose proof (length_searchMessages_le query f (ceil_half limit) 0 st) as Hm.
  fold cs in Hc. fold ms in Hm.
  pose proof (ceil_half_double limit) as Hb.
  assert (L : length (firstn limit (skipn offset (cs ++ ms)))
              <= 2 * ceil_half limit - offset).
  { rewrite length_firstn, length_skipn, length_app. lia. }
  split; [exact L|].
  intros Ho. apply length_zero_iff_nil.
  apply Nat.le_0_r. etransitivity; [exact L | lia].
Qed.

(* ----------------------------------------------------------------- *)
(** *** Snippets and titles *)

Lemma truncatedContent_bounds (c : str) :
  length (truncatedContent c) <= 203
  /\ firstn 200 (truncatedContent c) = firstn 200 c.
Proof.
  destruct (Nat.ltb_spec 200 (length c)) as [H | H].
  - destruct (truncatedContent_long c H) as [E L]. split; [lia|].
    rewrite E, firstn_app, length_firstn.
    replace (200 - Nat.min 200 (length c)) with 0 by lia.
    now rewrite firstn_firstn, app_nil_r.
  - rewrite (truncatedContent_short c H). split; [lia | reflexivity].
Qed.

(** X11: the content of a message result never exceeds 203 characters
    and agrees with the stored message on the first 200; its title is
    the parent chat's title in double quotes after [Message in ], with
    [Untitled Chat] for a missing or empty title. *)
Theorem searchMessages_content_and_title :
  forall query f limit offset st,
    Forall
      (fun r =>
         exists m c,
           In m (messagesTable st) /\ In c (chatThreadsTable st)
           /\ SearchResult.id r = messages.id m
           /\ messages.chatId m = chatThreads.id c
           /\ length (SearchResult.content r) <= 203
           /\ firstn 200 (SearchResult.content r)
              = firstn 200 (messages.content m)
           /\ SearchResult.title r
              = lit "Message in " ++ [dquote]
                ++ match chatThreads.title c with
                   | Some (a :: s) => a :: s
                   | _ => lit "Untitled Chat"
                   end
                ++ [dquote])
      (result (searchMessages query f limit offset st)).
Proof.
  intros query f limit offset st. apply Forall_forall. intros r H.
  rewrite searchMessages_run in H.
  destruct (toLowerCase (trim query)) as [|a t] eqn:E; [destruct H|].
  unfold result, fst in H. apply in_map_iff in H as (h & <- & H).
  unfold run_select_messages in H.
  apply In_page, In_stable_sort, in_map_iff in H as ([m c] & <- & H).
  apply In_arrange, filter_In in H as [Hin _].
  assert (Hj : messages.chatId m = chatThreads.id c).
  { unfold messages_join in Hin.
    apply in_flat_map in Hin as (m' & _ & Hin).
    apply in_map_iff in Hin as (c' & E' & Hin).
    injection E' as -> ->. apply filter_In in Hin as [_ Hin].
    now apply eqb_eq in Hin. }
  apply In_messages_join in Hin as [Hm Hc].
  destruct (truncatedContent_bounds (messages.content m)) as [B1 B2].
  exists m, c. repeat split; try assumption.
  simpl. unfold or_else.
  destruct (chatThreads.title c) as [[|x s]|]; reflexivity.
Qed.

(* ----------------------------------------------------------------- *)
(** *** Suggestions *)

Lemma length_first_seen (seen arr : list str) :
  length (first_seen seen arr) <= length arr.
Proof.
  revert seen. induction arr as [|x arr IH]; intros seen; simpl; [lia|].
  destruct (existsb (Str.eqb x) seen); simpl;
    specialize (IH (seen ++ [x])); lia.
Qed.

Lemma length_filter_Boolean (arr : list (option str)) :
  length (filter_Boolean arr) <= length arr.
Proof.
  induction arr as [|[[|c s]|] arr IH]; simpl; lia.
Qed.

Lemma In_first_seen_complete (seen arr : list str) (t : str) :
  In t arr -> ~ In t seen -> In t (first_seen seen arr).
Proof.
  revert seen. induction arr as [|x arr IH]; intros seen; simpl; [tauto|].
  intros Hin Hs.
  destruct (existsb (Str.eqb x) seen) eqn:Hx.
  - destruct Hin as [-> | Hin].
    + apply existsb_eqb_In in Hx. contradiction.
    + apply IH; [exact Hin|]. intros C. apply in_app_or in C as [C | [C | []]].
      * contradiction.
      * subst x. apply existsb_eqb_In in Hx. contradiction.
  - destruct Hin as [-> | Hin]; [now left|].
    destruct (list_eq_dec ascii_dec x t) as [-> | Hne]; [now left|].
    right. apply IH; [exact Hin|].
    intros C. apply in_app_or in C as [C | [C | []]]; contradiction.
Qed.

Lemma In_run_select_titles (st : Store) (owner query : str)
    (limit offset : option nat) (o : option str) :
  In o (run_select_titles st owner query limit offset) ->
  exists c,
    In c (chatThreadsTable st)
    /\ chatThreads.userId c = owner
    /\ chatThreads.title c = o
    /\ ilike_null o (contains_pat query) = true.
Proof.
  unfold run_select_titles. intros H.
  apply in_map_iff in H as (c & <- & H).
  apply In_page, In_stable_sort, In_arrange, filter_In in H as [Hc H].
  apply andb_true_iff in H as [Hu Hl]. apply eqb_eq in Hu. eauto.
Qed.

Lemma getSearchSuggestions_unique_in_order_aux (owner query : str)
    (limit : nat) (st : Store) :
  result (getSearchSuggestions owner query limit st)
  = (if length query <? 2 then []
     else first_seen []
            (filter_Boolean
               (run_select_titles st owner query (Some limit) None)))
  /\ Forall
       (fun t => In (Some t)
                   (run_select_titles st owner query (Some limit) None))
       (result (getSearchSuggestions owner query limit st)).
Proof.
  assert (E : result (getSearchSuggestions owner query limit st)
              = if length query <? 2 then []
                else first_seen []
                       (filter_Boolean
                          (run_select_titles st owner query (Some limit)
                             None))).
  { unfold getSearchSuggestions.
    destruct (length query <? 2); [reflexivity|].
    unfold bind, db_select_titles, ret, result. cbv beta zeta. cbn [fst].
    apply remove_duplicates_first_seen. }
  split; [exact E|]. rewrite E.
  destruct (length query <? 2); [constructor|].
  apply Forall_forall. intros t H.
  apply In_first_seen in H as [H _].
  now apply In_filter_Boolean in H as [H _].
Qed.

(** X12: there are at most [limit] suggestions, and each is the title
    of a chat of the store that belongs to the owner asked for. *)
Theorem getSearchSuggestions_bounded_and_owned :
  forall owner query limit st,
    length (result (getSearchSuggestions owner query limit st)) <= limit
    /\ Forall
         (fun t =>
            exists c,
              In c (chatThreadsTable st)
              /\ chatThreads.userId c = owner
              /\ chatThreads.title c = Some t)
         (result (getSearchSuggestions owner query limit st)).
Proof.
  intros owner query limit st.
  destruct (getSearchSuggestions_unique_in_order_aux owner query limit st)
    as [E Hall].
  split.
  - rewrite E. destruct (length query <? 2); [simpl; lia|].
    etransitivity; [apply length_first_seen|].
    etransitivity; [apply length_filter_Boolean|].
    unfold run_select_titles, page. rewrite length_map.
    apply firstn_le_length.
  - apply Forall_forall. intros t Ht.
    rewrite Forall_forall in Hall. specialize (Hall t Ht).
    apply In_run_select_titles in Hall as (c & Hc & Hu & Ht' & _). eauto.
Qed.

(** X13: for a query of at least two characters the store is asked
    once, for the owner's titles that hold the query, newest first and
    at most [limit] of them; the suggestions are exactly the non-empty
    titles of that answer. *)
Theorem getSearchSuggestions_keeps_every_title :
  forall owner query limit st t,
    2 <= length query ->
    accesses (getSearchSuggestions owner query limit st)
    = [ SelectTitles owner query (Some limit) None ]
    /\ (In t (result (getSearchSuggestions owner query limit st)) <->
        t <> []
        /\ In (Some t) (run_select_titles st owner query (Some limit) None)).
Proof.
  intros owner query limit st t Hq.
  destruct (getSearchSuggestions_unique_in_order_aux owner query limit st)
    as [E _].
  apply Nat.ltb_ge in Hq. split.
  - unfold getSearchSuggestions. now rewrite Hq.
  - rewrite E, Hq. split.
    + intros H. apply In_first_seen in H as [H _].
      apply In_filter_Boolean in H. tauto.
    + intros [Ht H]. apply In_first_seen_complete; [|intros []].
      apply In_filter_Boolean. tauto.
Qed.

Lemma getSearchSuggestions_keeps_every_title_witness :
  2 <= length (lit "test")
  /\ In (lit "Another Test")
       (result (getSearchSuggestions owner (lit "test") 5 title_store)).
Proof.
  assert (H : 2 <= length (lit "test")) by (vm_compute; lia).
  refine (conj H _).
  apply (getSearchSuggestions_keeps_every_title owner (lit "test") 5
           title_store (lit "Another Test") H).
  split; [discriminate|]. vm_compute. do 3 right. left. reflexivity.
Defined.

Lemma is_meta_lower_char (c : ascii) : is_meta (lower_char c) = is_meta c.
Proof.
  destruct c as [[] [] [] [] [] [] [] []]; vm_compute; reflexivity.
Qed.

Lemma plain_toLowerCase (q : str) : plain (toLowerCase q) = plain q.
Proof.
  unfold plain, toLowerCase. induction q as [|c q IH]; simpl; [reflexivity|].
  now rewrite is_meta_lower_char, IH.
Qed.

(** X14: when the query holds none of the pattern characters, every
    suggestion holds the query, case apart. *)
Theorem getSearchSuggestions_hold_the_query :
  forall owner query limit st,
    plain query = true ->
    Forall
      (fun t => includes (toLowerCase t) (toLowerCase query) = true)
      (result (getSearchSuggestions owner query limit st)).
Proof.
  intros owner query limit st Hp.
  destruct (getSearchSuggestions_unique_in_order_aux owner query limit st)
    as [_ Hall].
  eapply Forall_impl; [|exact Hall]. intros t Ht. cbv beta in Ht.
  apply In_run_select_titles in Ht as (c & _ & _ & _ & Hl).
  unfold ilike_null, ilike in Hl.
  rewrite LOWER_contains_pat in Hl. unfold LOWER in Hl.
  rewrite like_contains_pat in Hl; [exact Hl|].
  now rewrite plain_toLowerCase.
Qed.

Lemma getSearchSuggestions_hold_the_query_witness :
  plain (lit "TEST") = true
  /\ Forall
       (fun t => includes (toLowerCase t) (toLowerCase (lit "TEST")) = true)
       (result (getSearchSuggestions owner (lit "TEST") 5 title_store)).
Proof.
  assert (H : plain (lit "TEST") = true) by reflexivity.
  exact (conj H
           (getSearchSuggestions_hold_the_query owner (lit "TEST") 5
              title_store H)).
Defined.

(* ----------------------------------------------------------------- *)
(** *** [hasMore] *)

Lemma min_eqb_left (n k : nat) : (Nat.min n k =? n) = (n <=? k).
Proof.
  destruct (Nat.leb_spec n k) as [H | H].
  - apply Nat.eqb_eq. lia.
  - apply Nat.eqb_neq. lia.
Qed.

(** X15: for a query that is not blank and whose search terms have
    their escapes closed (so that the store raises no error on their
    patterns), a search of one kind reports [hasMore] exactly when at
    least [limit] matches are left from the offset on; in particular it
    reports [hasMore] when exactly [limit] are left and no further
    result exists. *)
Theorem search_handler_hasMore :
  forall fuzzySearch query f limit offset st,
    normalize query <> [] ->
    escapes_closed (normalize query) = true ->
    hasMore (result (search_handler fuzzySearch query chats f limit offset st))
    = (limit <=? length (chat_matches st (normalize query) f) - offset)
    /\ hasMore (result (search_handler fuzzySearch query messagesOnly f
                          limit offset st))
       = (limit <=? length (message_matches st (normalize query) f) - offset).
Proof.
  intros fuzzySearch query f limit offset st Hq _.
  unfold search_handler, bind, ret, result. cbv beta zeta. cbn [fst hasMore].
  rewrite searchChats_run, searchMessages_run. fold (normalize query).
  destruct (normalize query) as [|a t] eqn:E; [congruence|].
  cbn [fst]. rewrite !length_map.
  unfold run_select_chats, run_select_messages.
  rewrite !length_page.
  rewrite !(Permutation_length (stable_sort_perm _ _ _)), !length_map.
  rewrite !length_arrange.
  fold (chat_matches st (a :: t) f). fold (message_matches st (a :: t) f).
  split; apply min_eqb_left.
Qed.

Lemma search_handler_hasMore_witness :
  normalize (lit "alpha") <> []
  /\ escapes_closed (normalize (lit "alpha")) = true
  /\ hasMore (result (search_handler fuzzy_all (lit "alpha") chats
                        owner_filters 4 0 band_store))
     = true
  /\ result (searchChats fuzzy_all (lit "alpha") owner_filters 4 4 band_store)
     = [].
Proof.
  assert (H : normalize (lit "alpha") <> []) by (vm_compute; discriminate).
  assert (He : escapes_closed (normalize (lit "alpha")) = true)
    by reflexivity.
  refine (conj H (conj He (conj _ _))).
  - rewrite (proj1 (search_handler_hasMore fuzzy_all (lit "alpha")
                      owner_filters 4 0 band_store H He)).
    reflexivity.
  - reflexivity.
Defined.

(* ================================================================= *)
(** ** The route handlers *)

Lemma parse_required_some (v : option str) :
  parse_required v <> None <-> exists q, v = Some q /\ q <> [].
Proof.
  destruct v as [[|c s]|]; simpl; split; try congruence.
  - intros (q & E & H). congruence.
  - intros _. exists (c :: s). split; [reflexivity | discriminate].
  - intros (q & E & H). congruence.
Qed.

Lemma parse_type_some (v : option str) :
  parse_type v <> None <->
  (v = None \/ v = Some (lit "all") \/ v = Some (lit "chats")
   \/ v = Some (lit "messages")).
Proof.
  unfold parse_type.
  destruct v as [s|]; [|split; [auto | discriminate]].
  destruct (Str.eqb s (lit "all")) eqn:E1.
  { apply eqb_eq in E1. subst s. split; [auto | discriminate]. }
  destruct (Str.eqb s (lit "chats")) eqn:E2.
  { apply eqb_eq in E2. subst s. split; [auto | discriminate]. }
  destruct (Str.eqb s (lit "messages")) eqn:E3.
  { apply eqb_eq in E3. subst s. split; [auto | discriminate]. }
  apply eqb_neq in E1, E2, E3.
  split; [congruence|]. intros [C | [C | [C | C]]]; congruence.
Qed.

Lemma parse_number_some (lo : Z) (hi : option Z) (d : Z) (v : option Z) :
  parse_number lo hi d v <> None <->
  (forall n, v = Some n ->
             (lo <= n)%Z /\ (forall h, hi = Some h -> (n <= h)%Z)).
Proof.
  unfold parse_number. destruct v as [n|].
  - destruct (lo <=? n)%Z eqn:E1; simpl.
    + destruct hi as [h|].
      * destruct (n <=? h)%Z eqn:E2; split; try discriminate.
        -- intros _ n' E. injection E as <-. split; [lia|].
           intros h' E'. injection E' as <-. lia.
        -- congruence.
        -- intros H. destruct (H n eq_refl) as [_ H'].
           specialize (H' h eq_refl). lia.
      * split; [|discriminate].
        intros _ n' E. injection E as <-. split; [lia | discriminate].
    + split; [congruence|]. intros H. destruct (H n eq_refl). lia.
  - split; [discriminate | discriminate].
Qed.

Lemma parse_number_range (lo h d : Z) (v : option Z) (n : nat) :
  (lo <= d <= h)%Z ->
  parse_number lo (Some h) d v = Some n -> n <= Z.to_nat h.
Proof.
  unfold parse_number. intros Hd. destruct v as [k|].
  - destruct (lo <=? k)%Z eqn:E1; simpl; [|discriminate].
    destruct (k <=? h)%Z eqn:E2; [|discriminate].
    intros E. injection E as <-. lia.
  - intros E. injection E as <-. lia.
Qed.

Lemma searchQuerySchema_parse_some (p : SearchParams) :
  searchQuerySchema_parse p <> None <-> acceptable p.
Proof.
  unfold acceptable.
  rewrite <- parse_required_some, <- parse_type_some.
  pose proof (parse_number_some 1 (Some 100%Z) 20 (param_limit p)) as Hl.
  pose proof (parse_number_some 0 None 0 (param_offset p)) as Ho.
  unfold searchQuerySchema_parse.
  destruct (parse_required (param_q p)) as [q|];
    [|split; [congruence | intros (C & _); congruence]].
  destruct (parse_type (param_type p)) as [ty|];
    [|split; [congruence | intros (_ & C & _); congruence]].
  destruct (parse_number 1 (Some 100%Z) 20 (param_limit p)) as [l|].
  - destruct (parse_number 0 None 0 (param_offset p)) as [o|].
    + split; [|discriminate]. intros _.
      split; [discriminate|]. split; [discriminate|]. split.
      * intros n H.
        destruct (proj1 Hl ltac:(discriminate) n H) as [A B].
        split; [exact A | now apply B].
      * intros n H. apply (proj1 Ho ltac:(discriminate) n H).
    + split; [congruence|]. intros (_ & _ & _ & C) _.
      apply (proj2 Ho); [|reflexivity].
      intros n E. split; [now apply C | discriminate].
  - split; [congruence|]. intros (_ & _ & C & _) _.
    apply (proj2 Hl); [|reflexivity].
    intros n E. split; [now apply C|].
    intros h E'. injection E' as <-. now apply C.
Qed.

Section HandlerFacts.

Variable fuzzySearch : list FuzzyItem -> str -> list FuzzyItem.
Variable newDate : str -> Date.

Lemma searchChats_owned (query : str) (f : SearchFilters)
    (limit offset : nat) (st : Store) (r : SearchResult.t) :
  In r (result (searchChats fuzzySearch query f limit offset st)) ->
  owned_by st (userId f) r.
Proof.
  intros H. apply In_searchChats in H as (c & Hc & Hw & ->).
  apply chat_where_within in Hw as [(Hu & _) _].
  exists c. split; [exact Hc|]. split; [exact Hu|]. now left.
Qed.

Lemma searchMessages_owned (query : str) (f : SearchFilters)
    (limit offset : nat) (st : Store) (r : SearchResult.t) :
  In r (result (searchMessages query f limit offset st)) ->
  owned_by st (userId f) r.
Proof.
  intros H. apply In_searchMessages in H as (m & c & _ & Hc & Hw & ->).
  apply message_where_within in Hw as [(Hu & _) _].
  exists c. split; [exact Hc|]. split; [exact Hu|]. now right.
Qed.

Lemma search_handler_body (query : str) (type : SearchType)
    (f : SearchFilters) (limit offset : nat) (st : Store) :
  let response :=
    result (search_handler fuzzySearch query type f limit offset st) in
  total response = length (results response)
  /\ hasMore response = (length (results response) =? limit)
  /\ length (results response) <= limit
  /\ Forall (owned_by st (userId f)) (results response).
Proof.
  unfold search_handler, bind, ret, result. cbv beta zeta.
  cbn [fst results total hasMore].
  split; [reflexivity|]. split; [reflexivity|].
  destruct type.
  - fold (result (searchAll fuzzySearch query f limit st)).
    rewrite searchAll_run. unfold result at 1 3. cbn [fst].
    split; [apply firstn_le_length|].
    apply Forall_forall. intros r H.
    apply In_firstn_inv, in_app_or in H as [H | H];
      [eapply searchChats_owned | eapply searchMessages_owned]; exact H.
  - split; [apply length_searchChats_le|].
    apply Forall_forall. intros r. apply searchChats_owned.
  - split; [apply length_searchMessages_le|].
    apply Forall_forall. intros r. apply searchMessages_owned.
Qed.

(** X16: the search handler answers 401 exactly when the session has
    no user id; with a user id it answers 400 when [q] is missing or
    empty, the [type] is unknown, an integer [limit] lies outside 1..100
    or an integer [offset] is negative; an answer 401 or 400 is given
    before any query reaches the store. *)
Theorem GET_rejections :
  forall session p st,
    (result (GET fuzzySearch newDate session p st) = Unauthorized
     <-> truthy session = false)
    /\ (truthy session = true -> ~ acceptable p ->
        result (GET fuzzySearch newDate session p st) = InvalidParameters)
    /\ (result (GET fuzzySearch newDate session p st) = Unauthorized ->
        accesses (GET fuzzySearch newDate session p st) = [])
    /\ (result (GET fuzzySearch newDate session p st) = InvalidParameters ->
        accesses (GET fuzzySearch newDate session p st) = []).
Proof.
  intros session p st. unfold GET.
  destruct session as [[|c u]|]; simpl truthy.
  - repeat split; try reflexivity; try discriminate.
  - pose proof (searchQuerySchema_parse_some p) as Hp.
    destruct (searchQuerySchema_parse p) as [v|].
    + unfold bind, ret, result, accesses. cbv beta zeta. cbn [fst snd].
      repeat split; try discriminate.
      intros _ C. exfalso. apply C, Hp. discriminate.
    + repeat split; try reflexivity; try discriminate.
  - repeat split; try reflexivity; try discriminate.
Qed.

(** X17: when the search handler answers with a body, the session has a
    user id and every result stems from a chat of that user; [total] is
    the number of results, which is at most the validated limit and at
    most 100, and [hasMore] says whether it equals that limit. *)
Theorem GET_success_body :
  forall session p st body,
    result (GET fuzzySearch newDate session p st) = Success body ->
    exists uid v,
      session = Some uid /\ uid <> []
      /\ searchQuerySchema_parse p = Some v
      /\ body_query body = v_q v
      /\ total (body_response body) = length (results (body_response body))
      /\ hasMore (body_response body)
         = (length (results (body_response body)) =? v_limit v)
      /\ length (results (body_response body)) <= v_limit v
      /\ v_limit v <= 100
      /\ Forall (owned_by st uid) (results (body_response body)).
Proof.
  intros session p st body. unfold GET.
  destruct session as [[|c u]|]; try discriminate.
  destruct (searchQuerySchema_parse p) as [v|] eqn:E; [|discriminate].
  unfold bind, ret, result. cbv beta zeta. cbn [fst].
  intros H. injection H as <-. cbn [body_response body_query].
  destruct (search_handler_body (v_q v) (v_type v)
              (route_filters newDate (c :: u) v) (v_limit v) (v_offset v) st)
    as (H1 & H2 & H3 & H4).
  exists (c :: u), v. repeat split; try assumption; try discriminate.
  unfold searchQuerySchema_parse in E.
  destruct (parse_required (param_q p)); [|discriminate].
  destruct (parse_type (param_type p)); [|discriminate].
  destruct (parse_number 1 (Some 100%Z) 20 (param_limit p)) as [l|] eqn:El;
    [|discriminate].
  destruct (parse_number 0 None 0 (param_offset p)); [|discriminate].
  injection E as <-. cbn [v_limit].
  apply (parse_number_range 1 100 20 (param_limit p) l); [lia | exact El].
Qed.

End HandlerFacts.

Lemma GET_success_body_witness :
  result (GET fuzzy_all no_date (Some owner) alpha_params band_store)
  = Success alpha_body
  /\ length (results (body_response alpha_body)) <= 100
  /\ Forall (owned_by band_store owner) (results (body_response alpha_body)).
Proof.
  assert (H : result (GET fuzzy_all no_date (Some owner) alpha_params
                        band_store)
              = Success alpha_body) by reflexivity.
  destruct (GET_success_body fuzzy_all no_date (Some owner) alpha_params
              band_store alpha_body H)
    as (uid & v & Es & _ & _ & _ & _ & _ & Hl & Hv & Hall).
  injection Es as <-.
  refine (conj H (conj _ Hall)).
  exact (Nat.le_trans _ _ _ Hl Hv).
Defined.

(** X18: when the suggestion handler answers with a body, the session
    has a user id, the query is not empty and the limit is at most 20;
    the suggestions are distinct titles of that user's chats, at most
    [limit] of them; for a query of one character the body holds no
    suggestion and the store is not asked. *)
Theorem suggestions_GET_body :
  forall session p st body,
    result (suggestions_GET session p st) = Success body ->
    exists uid q limit,
      session = Some uid /\ uid <> []
      /\ sparam_q p = Some q /\ q <> []
      /\ suggestionsQuerySchema_parse p = Some (q, limit)
      /\ limit <= 20
      /\ body_suggestions_query body = q
      /\ length (body_suggestions body) <= limit
      /\ NoDup (body_suggestions body)
      /\ Forall
           (fun t =>
              exists c,
                In c (chatThreadsTable st)
                /\ chatThreads.userId c = uid
                /\ chatThreads.title c = Some t)
           (body_suggestions body)
      /\ (length q < 2 ->
          body_suggestions body = []
          /\ accesses (suggestions_GET session p st) = []).
Proof.
  intros session p st body. unfold suggestions_GET.
  destruct session as [[|c u]|]; try discriminate.
  destruct (suggestionsQuerySchema_parse p) as [[q limit]|] eqn:E;
    [|discriminate].
  unfold bind, ret, result, accesses. cbv beta zeta. cbn [fst snd].
  intros H. injection H as <-.
  cbn [body_suggestions body_suggestions_query].
  fold (result (getSearchSuggestions (c :: u) q limit st)).
  destruct (getSearchSuggestions_unique_in_order_aux (c :: u) q limit st)
    as [Eout Hall].
  unfold suggestionsQuerySchema_parse in E.
  destruct (parse_required (sparam_q p)) as [q'|] eqn:Eq; [|discriminate].
  destruct (parse_number 1 (Some 20%Z) 5 (sparam_limit p)) as [l|] eqn:El;
    [|discriminate].
  injection E as -> ->.
  assert (Hq : sparam_q p = Some q /\ q <> []).
  { destruct (sparam_q p) as [[|a s]|]; simpl in Eq; try discriminate.
    injection Eq as <-. split; [reflexivity | discriminate]. }
  exists (c :: u), q, limit.
  split; [reflexivity|]. split; [discriminate|].
  split; [apply Hq|]. split; [apply Hq|].
  split; [reflexivity|].
  split; [apply (parse_number_range 1 20 5 (sparam_limit p) limit);
          [lia | exact El]|].
  split; [reflexivity|].
  split.
  { rewrite Eout. destruct (length q <? 2); [simpl; lia|].
    etransitivity; [apply length_first_seen|].
    etransitivity; [apply length_filter_Boolean|].
    unfold run_select_titles, page. rewrite length_map.
    apply firstn_le_length. }
  split.
  { rewrite Eout. destruct (length q <? 2);
      [constructor | apply NoDup_first_seen]. }
  split.
  { apply Forall_forall. intros t Ht.
    rewrite Forall_forall in Hall. specialize (Hall t Ht).
    apply In_run_select_titles in Hall as (c0 & Hc & Hu & Ht' & _). eauto. }
  intros Hlen. apply Nat.ltb_lt in Hlen.
  unfold getSearchSuggestions. rewrite Hlen. split; reflexivity.
Qed.

Lemma suggestions_GET_body_witness :
  result (suggestions_GET (Some owner) test_suggestion_params title_store)
  = Success test_suggestion_body
  /\ NoDup (body_suggestions test_suggestion_body)
  /\ length (body_suggestions test_suggestion_body) <= 20.
Proof.
  assert (H : result (suggestions_GET (Some owner) test_suggestion_params
                        title_store)
              = Success test_suggestion_body) by reflexivity.
  destruct (suggestions_GET_body (Some owner) test_suggestion_params
              title_store test_suggestion_body H)
    as (uid & q & limit & _ & _ & _ & _ & _ & Hl & _ & Hlen & Hn & _).
  refine (conj H (conj Hn _)).
  exact (Nat.le_trans _ _ _ Hlen Hl).
Defined.

(* ================================================================= *)
(** ** The search page *)

Lemma trim_nonempty (q : str) : trim q <> [] -> q <> [].
Proof. intros H E. subst q. now apply H. Qed.

Lemma parse_type_name (t : SearchType) :
  parse_type (Some (Client.type_name t)) = Some t.
Proof. destruct t; reflexivity. Qed.

Section PageFacts.

Variable fuzzySearch : list FuzzyItem -> str -> list FuzzyItem.
Variable newDate : str -> Date.
Variable toISOString : Date -> str.

Lemma request_parse (q : str) (f : Client.SearchFilters) (o : nat) :
  q <> [] ->
  searchQuerySchema_parse (Client.request toISOString q f o)
  = Some {| v_q := q; v_type := Client.type f; v_limit := 20;
            v_offset := o;
            v_dateFrom := option_map toISOString (Client.dateFrom f);
            v_dateTo := option_map toISOString (Client.dateTo f);
            v_projectId := or_undefined (Client.projectId f) |}.
Proof.
  intros Hq. unfold searchQuerySchema_parse, Client.request.
  cbn [param_q param_type param_limit param_offset param_dateFrom
       param_dateTo param_projectId].
  rewrite parse_type_name.
  destruct q as [|a q]; [congruence|]. cbn [parse_required].
  unfold parse_number.
  replace (0 <=? Z.of_nat o)%Z with true by (symmetry; apply Z.leb_le; lia).
  cbn. now rewrite Nat2Z.id.
Qed.

(** What [performSearch] does for a query that is not blank and a
    session with a user id. *)
Lemma performSearch_run (c : ascii) (u q : str) (f : Client.SearchFilters)
    (o : nat) (append : bool) (s : Client.state) (st : Store) :
  trim q <> [] ->
  let response :=
    search_handler fuzzySearch q (Client.type f)
      (page_server_filters newDate toISOString (c :: u) f) 20 o st in
  Client.performSearch fuzzySearch newDate toISOString (Some (c :: u))
    q f o append s st
  = ({| Client.results :=
          if append then Client.results s ++ results (result response)
          else results (result response);
        Client.hasMore := hasMore (result response);
        Client.offset := o + length (results (result response)) |},
     accesses response).
Proof.
  intros Hq response. unfold Client.performSearch.
  destruct (trim q) as [|a t] eqn:E; [congruence|].
  unfold bind, GET. rewrite (request_parse q f o)
    by (apply trim_nonempty; congruence).
  cbv beta iota zeta. unfold bind, ret. cbv beta iota zeta.
  cbn [fst snd v_q v_type v_limit v_offset].
  unfold data_results, data_hasMore, result, accesses.
  cbn [body_response]. rewrite !app_nil_r. reflexivity.
Qed.

End PageFacts.

Section PageTheorems.

Variable fuzzySearch : list FuzzyItem -> str -> list FuzzyItem.
Variable newDate : str -> Date.
Variable toISOString : Date -> str.

(** A first search that reports more results was not blank, had a
    session with a user id, and showed twenty results. *)
Lemma first_search_hasMore (session : option str) (q : str)
    (f : Client.SearchFilters) (s0 : Client.state) (st : Store) :
  Client.hasMore
    (result (Client.performSearch fuzzySearch newDate toISOString session
               q f 0 false s0 st)) = true ->
  trim q <> []
  /\ exists c u,
       session = Some (c :: u)
       /\ length
            (results
               (result
                  (search_handler fuzzySearch q (Client.type f)
                     (page_server_filters newDate toISOString (c :: u) f)
                     20 0 st))) = 20.
Proof.
  intros H.
  destruct (trim q) as [|a t] eqn:E.
  { unfold Client.performSearch in H. rewrite E in H. discriminate H. }
  split; [discriminate|].
  destruct session as [[|c u]|];
    try (unfold Client.performSearch in H; rewrite E in H; discriminate H).
  exists c, u. split; [reflexivity|].
  rewrite performSearch_run in H by congruence.
  unfold result at 1 in H. cbn [fst Client.hasMore] in H.
  destruct (search_handler_body fuzzySearch q (Client.type f)
              (page_server_filters newDate toISOString (c :: u) f) 20 0 st)
    as (_ & Hm & _).
  rewrite Hm in H. now apply Nat.eqb_eq in H.
Qed.

(** X19: on the page, loading more after a search of type [all] shows
    the same twenty results a second time: the handler takes no offset
    for this type, so the list doubles, [hasMore] stays on and the
    offset moves to 40. *)
Theorem loadMore_all_repeats_the_page :
  forall session q f s0 st,
    let s1 :=
      result (Client.performSearch fuzzySearch newDate toISOString session
                q f 0 false s0 st) in
    Client.type f = all ->
    Client.hasMore s1 = true ->
    result (Client.loadMore fuzzySearch newDate toISOString session q f s1 st)
    = {| Client.results := Client.results s1 ++ Client.results s1;
         Client.hasMore := true;
         Client.offset := 40 |}
    /\ length (Client.results s1) = 20.
Proof.
  intros session q f s0 st s1 Hf H.
  destruct (first_search_hasMore session q f s0 st H)
    as (Hq & c & u & -> & Hlen).
  assert (E1 : s1 = {| Client.results :=
                         results
                           (result
                              (search_handler fuzzySearch q all
                                 (page_server_filters newDate toISOString
                                    (c :: u) f) 20 0 st));
                       Client.hasMore := true;
                       Client.offset := 20 |}).
  { unfold s1 in *. rewrite performSearch_run in * by exact Hq.
    unfold result at 1 in H. cbn [fst Client.hasMore] in H.
    unfold result at 1. cbn [fst]. rewrite Hf in *. rewrite H, Hlen.
    reflexivity. }
  rewrite Hf in Hlen. rewrite E1. cbn [Client.results]. split; [|exact Hlen].
  unfold Client.loadMore. cbn [Client.hasMore Client.offset].
  destruct q as [|a q]; [exfalso; now apply Hq|].
  rewrite performSearch_run by exact Hq.
  unfold result at 1. cbn [fst Client.results]. rewrite Hf.
  change (search_handler fuzzySearch (a :: q) all
            (page_server_filters newDate toISOString (c :: u) f) 20 20 st)
    with (search_handler fuzzySearch (a :: q) all
            (page_server_filters newDate toISOString (c :: u) f) 20 0 st).
  destruct (search_handler_body fuzzySearch (a :: q) all
              (page_server_filters newDate toISOString (c :: u) f) 20 0 st)
    as (_ & Hm & _).
  rewrite Hm, Hlen. reflexivity.
Qed.

Lemma search_handler_one_kind_pages (q : str) (ty : SearchType)
    (f : SearchFilters) (n m : nat) (st : Store) :
  ty <> all ->
  untied st ty (normalize q) f ->
  results (result (search_handler fuzzySearch q ty f n 0 st))
  ++ results (result (search_handler fuzzySearch q ty f m n st))
  = results (result (search_handler fuzzySearch q ty f (n + m) 0 st)).
Proof.
  intros Hty Hu. unfold search_handler, bind, ret, result. cbv beta zeta.
  cbn [fst results].
  destruct ty; [congruence | |].
  - apply (searchChats_pages_join fuzzySearch q f n m 0 st Hu).
  - apply (searchMessages_pages_join q f n m 0 st Hu).
Qed.

(** X20: on the page, in a store where no two matches tie under the
    ORDER BY of the query and for search terms whose escapes are
    closed, loading more after a search for chats only or for messages
    only continues the list: the page then shows what one search with
    limit 40 at offset 0 returns. *)
Theorem loadMore_one_kind_continues :
  forall uid q f s0 st,
    let s1 :=
      result (Client.performSearch fuzzySearch newDate toISOString
                (Some uid) q f 0 false s0 st) in
    Client.type f <> all ->
    escapes_closed (normalize q) = true ->
    untied st (Client.type f) (normalize q)
      (page_server_filters newDate toISOString uid f) ->
    Client.hasMore s1 = true ->
    Client.results
      (result (Client.loadMore fuzzySearch newDate toISOString (Some uid)
                 q f s1 st))
    = results
        (result
           (search_handler fuzzySearch q (Client.type f)
              (page_server_filters newDate toISOString uid f) 40 0 st)).
Proof.
  intros uid q f s0 st s1 Hf _ Hu H.
  destruct (first_search_hasMore (Some uid) q f s0 st H)
    as (Hq & c & u & Eu & Hlen).
  injection Eu as ->.
  unfold s1 in *. rewrite performSearch_run in * by exact Hq.
  unfold result at 1 in H. cbn [fst Client.hasMore] in H.
  unfold result at 2. cbn [fst].
  unfold Client.loadMore. cbn [Client.hasMore Client.offset Client.results].
  rewrite H, Hlen.
  destruct q as [|a q]; [exfalso; now apply Hq|].
  rewrite performSearch_run by exact Hq.
  unfold result at 1. cbn [fst Client.results].
  now apply (search_handler_one_kind_pages (a :: q) (Client.type f) _ 20 20).
Qed.

End PageTheorems.

Lemma loadMore_all_repeats_the_page_witness :
  Client.type (page_filters all) = all
  /\ Client.hasMore
       (result (Client.performSearch fuzzy_all no_date no_iso (Some owner)
                  (lit "alpha") (page_filters all) 0 false fresh_page
                  (many_store 10))) = true
  /\ length
       (Client.results
          (result
             (Client.loadMore fuzzy_all no_date no_iso (Some owner)
                (lit "alpha") (page_filters all)
                (result (Client.performSearch fuzzy_all no_date no_iso
                           (Some owner) (lit "alpha") (page_filters all)
                           0 false fresh_page (many_store 10)))
                (many_store 10)))) = 40.
Proof.
  assert (H1 : Client.type (page_filters all) = all) by reflexivity.
  assert (H2 : Client.hasMore
                 (result (Client.performSearch fuzzy_all no_date no_iso
                            (Some owner) (lit "alpha") (page_filters all)
                            0 false fresh_page (many_store 10))) = true)
    by (vm_compute; reflexivity).
  destruct (loadMore_all_repeats_the_page fuzzy_all no_date no_iso
              (Some owner) (lit "alpha") (page_filters all) fresh_page
              (many_store 10) H1 H2) as [E L].
  refine (conj H1 (conj H2 _)).
  rewrite E. cbn [Client.results]. rewrite length_app, L. reflexivity.
Defined.

Lemma loadMore_one_kind_continues_witness :
  Client.type (page_filters chats) <> all
  /\ escapes_closed (normalize (lit "alpha")) = true
  /\ untied (many_store 25) (Client.type (page_filters chats))
       (normalize (lit "alpha"))
       (page_server_filters no_date no_iso owner (page_filters chats))
  /\ Client.hasMore
       (result (Client.performSearch fuzzy_all no_date no_iso (Some owner)
                  (lit "alpha") (page_filters chats) 0 false fresh_page
                  (many_store 25))) = true
  /\ length
       (Client.results
          (result
             (Client.loadMore fuzzy_all no_date no_iso (Some owner)
                (lit "alpha") (page_filters chats)
                (result (Client.performSearch fuzzy_all no_date no_iso
                           (Some owner) (lit "alpha") (page_filters chats)
                           0 false fresh_page (many_store 25)))
                (many_store 25)))) = 25.
Proof.
  assert (H1 : Client.type (page_filters chats) <> all) by discriminate.
  assert (He : escapes_closed (normalize (lit "alpha")) = true)
    by reflexivity.
  assert (Hu : untied (many_store 25) (Client.type (page_filters chats))
                 (normalize (lit "alpha"))
                 (page_server_filters no_date no_iso owner
                    (page_filters chats))).
  { unfold untied, page_filters, Client.type, untied_chats.
    apply (NoDup_map_inv snd). vm_compute.
    repeat (constructor;
            [intros C; repeat (destruct C as [C | C]; [discriminate C|]);
             exact C|]).
    constructor. }
  assert (H2 : Client.hasMore
                 (result (Client.performSearch fuzzy_all no_date no_iso
                            (Some owner) (lit "alpha") (page_filters chats)
                            0 false fresh_page (many_store 25))) = true)
    by (vm_compute; reflexivity).
  refine (conj H1 (conj He (conj Hu (conj H2 _)))).
  rewrite (loadMore_one_kind_continues fuzzy_all no_date no_iso owner
             (lit "alpha") (page_filters chats) fresh_page (many_store 25)
             H1 He Hu H2).
  vm_compute. reflexivity.
Defined.
